(** * Route resolution and reconciliation of the push action
    (actor/pushaction/route.go)

    A shallow embedding of the route logic of the push actor: the
    domain matcher ([splitHost], [calculateRoute],
    [generatePossibleDomains]), the hostname sanitizer ([sanitize]), the
    default-route selection ([calculateHostname], [calculatePath]), the
    route calculator ([CalculateRoutes]) and the reconciler
    ([MapRoutes], [UnmapRoutes], [CreateRoutes]).

    Go strings are byte sequences and are modelled by [string]; Go [int]
    values by [Z]; slices by [list] (a nil slice is the empty list); a Go
    map by [gmap], a Go map used as a set by [gset]; an [error] value by
    [option error], [None] being nil.  A run-time panic is an outcome of
    its own, [Panics]. *)

From Stdlib Require Import ZArith Ascii String List Lia.
From stdpp Require Import base option list gmap strings.

Local Open Scope Z_scope.
Set Warnings "-clear-no-such-hyp".

(** ** Outcomes of Go calls that may panic *)

Inductive outcome (A : Type) : Type :=
  | Returns (a : A)
  | Panics.
Arguments Returns {A} a.
Arguments Panics {A}.

(** ** The parts of the Go [strings] package the file uses

    The source only ever passes the one-byte separator ["."] to [Count]
    and [SplitN], so the separator is a byte here. *)

Module strings.

Definition len (s : string) : Z := Z.of_nat (String.length s).

(** [strings.Count(s, sep)]: the number of occurrences of [sep]. *)
Fixpoint Count (s : string) (sep : ascii) : Z :=
  match s with
  | EmptyString => 0
  | String c s' => (if decide (c = sep) then 1 else 0) + Count s' sep
  end.

(** [m := strings.Index(s, sep)] followed by the two slices [s[:m]] and
    [s[m+1:]]; [None] when [sep] does not occur ([m < 0]). *)
Fixpoint cut (s : string) (sep : ascii) : option (string * string) :=
  match s with
  | EmptyString => None
  | String c s' =>
      if decide (c = sep) then Some (EmptyString, s')
      else match cut s' sep with
           | Some (a, b) => Some (String c a, b)
           | None => None
           end
  end.

(** The loop of [genSplit]: at most [n] cuts, the rest is kept whole. *)
Fixpoint genSplit (s : string) (sep : ascii) (n : nat) : list string :=
  match n with
  | O => [s]
  | S n' =>
      match cut s sep with
      | None => [s]
      | Some (a, rest) => a :: genSplit rest sep n'
      end
  end.

(** [strings.SplitN(s, sep, n)]: [n = 0] gives nil, [n < 0] all
    substrings, [n > 0] at most [n] substrings, the last one being the
    unsplit remainder. *)
Definition SplitN (s : string) (sep : ascii) (n : Z) : list string :=
  if decide (n = 0) then []
  else
    let n := if decide (n < 0) then Count s sep + 1 else n in
    let n := if decide (n > len s + 1) then len s + 1 else n in
    genSplit s sep (Z.to_nat (n - 1)).

(** [strings.Join(elems, sep)]. *)
Fixpoint Join (elems : list string) (sep : string) : string :=
  match elems with
  | [] => ""
  | e :: rest =>
      match rest with
      | [] => e
      | _ :: _ => e +:+ sep +:+ Join rest sep
      end
  end.

End strings.

(** ** Data model *)

(** Modelled from the spec: the [v2action.Domain] type is declared outside
    this file; the spec gives a domain a name, a GUID, a routing type in
    {HTTP, TCP} and a scope in {owned by an organisation, shared}. *)
Inductive RoutingType := HTTP | TCP.
Inductive DomainScope := Owned | Shared.

Record Domain : Type := mkDomain {
  domain_GUID : string;
  domain_Name : string;
  domain_RoutingType : RoutingType;
  domain_Scope : DomainScope
}.

(** The zero value [v2action.Domain{}]. *)
Definition Domain_zero : Domain := mkDomain "" "" HTTP Owned.

Definition IsHTTP (d : Domain) : bool :=
  match domain_RoutingType d with HTTP => true | TCP => false end.
Definition IsTCP (d : Domain) : bool :=
  match domain_RoutingType d with TCP => true | HTTP => false end.
Definition IsShared (d : Domain) : bool :=
  match domain_Scope d with Shared => true | Owned => false end.

(** [types.NullInt]: an optional integer. *)
Record NullInt : Type := mkNullInt { Value : Z; IsSet : bool }.
Definition NullInt_zero : NullInt := mkNullInt 0 false.

Record Route : Type := mkRoute {
  route_GUID : string;
  route_Host : string;
  route_Domain : Domain;
  route_Path : string;
  route_Port : NullInt;
  route_SpaceGUID : string
}.

Definition Route_zero : Route :=
  mkRoute "" "" Domain_zero "" NullInt_zero "".

(** Modelled from the spec: [v2action.Route.RandomTCPPort] is declared
    outside this file; the spec requests random port allocation when the
    route's port is unset and its domain is TCP. *)
Definition RandomTCPPort (r : Route) : bool :=
  IsTCP (route_Domain r) && negb (IsSet (route_Port r)).

(** The error values the file builds or tells apart by type; every other
    error value is an [OtherError]. *)
Inductive error : Type :=
  | DomainNotFoundError (Name : string)
  | NoMatchingDomainError (Route : string)
  | HostnameWithTCPDomainError
  | NoHostnameAndSharedDomainError
  | RoutePathWithTCPDomainError
  | RouteInDifferentSpaceError (Route : string)
  | RouteNotFoundError
  | OtherError (message : string).

Definition Warnings := list string.

Global Instance RoutingType_eq_dec : EqDecision RoutingType.
Proof. solve_decision. Defined.
Global Instance DomainScope_eq_dec : EqDecision DomainScope.
Proof. solve_decision. Defined.
Global Instance Domain_eq_dec : EqDecision Domain.
Proof. solve_decision. Defined.
Global Instance NullInt_eq_dec : EqDecision NullInt.
Proof. solve_decision. Defined.
Global Instance Route_eq_dec : EqDecision Route.
Proof. solve_decision. Defined.
Global Instance error_eq_dec : EqDecision error.
Proof. solve_decision. Defined.

(** ** Domain matcher *)

(** [splitHost]: with exactly one dot the whole string is the domain;
    otherwise the string is cut at its first dot.  The two index
    expressions [split[0]] and [split[1]] panic when out of range. *)
Definition splitHost (url : string) : outcome (string * string) :=
  let count := strings.Count url "." in
  if decide (count = 1) then Returns ("", url)
  else
    let split := strings.SplitN url "." 2 in
    match split !! 0%nat, split !! 1%nat with
    | Some host, Some domain => Returns (host, domain)
    | _, _ => Panics
    end.

(** [calculateRoute] recurses on the part of the route after its first
    dot, which is not a structural subterm; the recursion is driven by a
    fuel argument, [None] meaning that the fuel ran out.  The length of
    the route is always enough ([calculateRoute_unfold] below gives back
    the recursion equation of the source). *)
Fixpoint calculateRoute_fuel (fuel : nat) (route : string)
    (domainCache : gmap string Domain)
    : option (outcome (list string * Domain * option error)) :=
  match fuel with
  | O => None
  | S fuel' =>
      match splitHost route with
      | Panics => Some Panics
      | Returns (host, domain) =>
          match domainCache !! route with
          | Some found => Some (Returns ([], found, None))
          | None =>
              if decide (host = "")
              then Some (Returns ([], Domain_zero,
                                  Some (DomainNotFoundError route)))
              else
                match calculateRoute_fuel fuel' domain domainCache with
                | None => None
                | Some Panics => Some Panics
                | Some (Returns (hosts, foundDomain, err)) =>
                    Some (Returns (host :: hosts, foundDomain, err))
                end
          end
      end
  end.

Definition calculateRoute (route : string) (domainCache : gmap string Domain)
    : outcome (list string * Domain * option error) :=
  match calculateRoute_fuel (S (String.length route)) route domainCache with
  | Some r => r
  | None => Panics
  end.

(** ** Runes: the parts of [unicode/utf8], [unicode] and [strings] that
    [sanitize] uses *)

Definition rune := Z.

Module utf8.

Definition RuneError : rune := 0xFFFD.
Definition RuneSelf : Z := 0x80.

Definition byte_val (c : ascii) : Z := Z.of_N (N_of_ascii c).
Definition byte_of (z : Z) : ascii := ascii_of_N (Z.to_N z).

Definition is_cont (b : Z) : bool := (0x80 <=? b) && (b <=? 0xBF).

(** [utf8.DecodeRuneInString]: the first rune of [s] and its width in
    bytes; an invalid or short encoding gives [(RuneError, 1)]. *)
Definition DecodeRuneInString (s : string) : rune * nat :=
  match s with
  | EmptyString => (RuneError, 0%nat)
  | String c0 t0 =>
      let s0 := byte_val c0 in
      if s0 <? RuneSelf then (s0, 1%nat)
      else if (s0 <? 0xC2) || (0xF4 <? s0) then (RuneError, 1%nat)
      else
        let sz := if s0 <? 0xE0 then 2 else if s0 <? 0xF0 then 3 else 4 in
        let lo := if s0 =? 0xE0 then 0xA0
                  else if s0 =? 0xF0 then 0x90 else 0x80 in
        let hi := if s0 =? 0xED then 0x9F
                  else if s0 =? 0xF4 then 0x8F else 0xBF in
        if strings.len s <? sz then (RuneError, 1%nat)
        else
          match t0 with
          | EmptyString => (RuneError, 1%nat)
          | String c1 t1 =>
              let s1 := byte_val c1 in
              if (s1 <? lo) || (hi <? s1) then (RuneError, 1%nat)
              else if sz <=? 2
              then (Z.lor (Z.shiftl (Z.land s0 0x1F) 6) (Z.land s1 0x3F),
                    2%nat)
              else
                match t1 with
                | EmptyString => (RuneError, 1%nat)
                | String c2 t2 =>
                    let s2 := byte_val c2 in
                    if negb (is_cont s2) then (RuneError, 1%nat)
                    else if sz <=? 3
                    then (Z.lor (Z.shiftl (Z.land s0 0x0F) 12)
                            (Z.lor (Z.shiftl (Z.land s1 0x3F) 6)
                               (Z.land s2 0x3F)), 3%nat)
                    else
                      match t2 with
                      | EmptyString => (RuneError, 1%nat)
                      | String c3 _ =>
                          let s3 := byte_val c3 in
                          if negb (is_cont s3) then (RuneError, 1%nat)
                          else
                            (Z.lor (Z.shiftl (Z.land s0 0x07) 18)
                               (Z.lor (Z.shiftl (Z.land s1 0x3F) 12)
                                  (Z.lor (Z.shiftl (Z.land s2 0x3F) 6)
                                     (Z.land s3 0x3F))), 4%nat)
                      end
                end
          end
  end.

(** The runes of [s] as a [for ... range s] loop visits them, each with
    the bytes it was decoded from.  [skip] counts the bytes of the
    current rune still to be passed over. *)
Fixpoint decode_from (skip : nat) (s : string) : list (rune * string) :=
  match s with
  | EmptyString => []
  | String _ s' =>
      match skip with
      | S k => decode_from k s'
      | O =>
          let '(r, w) := DecodeRuneInString s in
          (r, substring 0 w s) :: decode_from (w - 1) s'
      end
  end.

Definition range (s : string) : list rune := fst <$> decode_from 0 s.

(** [utf8.EncodeRune], as [string(rs)] applies it to each rune of a
    [[]rune]. *)
Definition EncodeRune (r : rune) : string :=
  let r := if (r <? 0) || (0x10FFFF <? r) || ((0xD800 <=? r) && (r <=? 0xDFFF))
           then RuneError else r in
  if r <=? 0x7F then String (byte_of r) ""
  else if r <=? 0x7FF then
    String (byte_of (Z.lor 0xC0 (Z.shiftr r 6)))
      (String (byte_of (Z.lor 0x80 (Z.land r 0x3F))) "")
  else if r <=? 0xFFFF then
    String (byte_of (Z.lor 0xE0 (Z.shiftr r 12)))
      (String (byte_of (Z.lor 0x80 (Z.land (Z.shiftr r 6) 0x3F)))
         (String (byte_of (Z.lor 0x80 (Z.land r 0x3F))) ""))
  else
    String (byte_of (Z.lor 0xF0 (Z.shiftr r 18)))
      (String (byte_of (Z.lor 0x80 (Z.land (Z.shiftr r 12) 0x3F)))
         (String (byte_of (Z.lor 0x80 (Z.land (Z.shiftr r 6) 0x3F)))
            (String (byte_of (Z.lor 0x80 (Z.land r 0x3F))) ""))).

(** The conversion [string(rs)] of a [[]rune]. *)
Fixpoint string_of_runes (rs : list rune) : string :=
  match rs with
  | [] => ""
  | r :: rest => EncodeRune r +:+ string_of_runes rest
  end.

End utf8.

Module unicode.

(** [unicode.IsSpace]: the Unicode White_Space property. *)
Definition IsSpace (r : rune) : bool :=
  ((0x09 <=? r) && (r <=? 0x0D)) || (r =? 0x20) || (r =? 0x85)
  || (r =? 0xA0) || (r =? 0x1680) || ((0x2000 <=? r) && (r <=? 0x200A))
  || (r =? 0x2028) || (r =? 0x2029) || (r =? 0x202F) || (r =? 0x205F)
  || (r =? 0x3000).

(** [unicode.ToLower] on the ASCII range.  The source calls it on runes
    between 'A' and 'Z' only; the case tables of the other runes are
    left out, and such a rune is returned as it is. *)
Definition ToLower (r : rune) : rune :=
  if (0x41 <=? r) && (r <=? 0x5A) then r + (0x61 - 0x41) else r.

End unicode.

(** Rune literals of the source. *)
Definition rune_of (c : ascii) : rune := utf8.byte_val c.

(** The longest prefix of [l] that does not end with an element that
    satisfies [f]. *)
Fixpoint dropWhileEnd {A} (f : A → bool) (l : list A) : list A :=
  match l with
  | [] => []
  | x :: l' =>
      match dropWhileEnd f l' with
      | [] => if f x then [] else [x]
      | t => x :: t
      end
  end.

(** The suffix of [l] that starts at its first element that does not
    satisfy [f]. *)
Fixpoint dropWhile {A} (f : A → bool) (l : list A) : list A :=
  match l with
  | [] => []
  | x :: l' => if f x then dropWhile f l' else l
  end.

Fixpoint concat_strings (l : list string) : string :=
  match l with
  | [] => ""
  | s :: l' => s +:+ concat_strings l'
  end.

(** [strings.TrimSpace]: all leading and trailing white space, as defined
    by Unicode, removed.  The string is read rune by rune; the runes that
    remain are put back as the bytes they were decoded from. *)
Definition TrimSpace (s : string) : string :=
  let is_space (p : rune * string) := unicode.IsSpace p.1 in
  concat_strings
    (snd <$> dropWhileEnd is_space (dropWhile is_space (utf8.decode_from 0 s))).

(** [strings.Trim(s, cutset)] for a cutset of one byte: all leading and
    trailing occurrences of that byte removed. *)
Fixpoint TrimLeft (s : string) (c : ascii) : string :=
  match s with
  | EmptyString => ""
  | String a s' => if decide (a = c) then TrimLeft s' c else s
  end.

Fixpoint TrimRight (s : string) (c : ascii) : string :=
  match s with
  | EmptyString => ""
  | String a s' =>
      match TrimRight s' c with
      | EmptyString => if decide (a = c) then "" else String a ""
      | t => String a t
      end
  end.

Definition Trim (s : string) (c : ascii) : string :=
  TrimRight (TrimLeft s c) c.

(** ** Hostname sanitizer *)

Definition between (lo : ascii) (r : rune) (hi : ascii) : bool :=
  (rune_of lo <=? r) && (r <=? rune_of hi).

(** The body of the loop of [sanitize], with the two variables it
    updates. *)
Fixpoint sanitize_loop (rs : list rune) (sanitizedName : list rune)
    (validCount : Z) : list rune * Z :=
  match rs with
  | [] => (sanitizedName, validCount)
  | runeChar :: rest =>
      if between "a" runeChar "z" then
        sanitize_loop rest (sanitizedName ++ [runeChar]) (validCount + 1)
      else if between "A" runeChar "Z" then
        sanitize_loop rest (sanitizedName ++ [unicode.ToLower runeChar])
          (validCount + 1)
      else if (rune_of " " =? runeChar) || (rune_of "-" =? runeChar) then
        sanitize_loop rest (sanitizedName ++ [rune_of "-"]) validCount
      else if between "0" runeChar "9" then
        sanitize_loop rest (sanitizedName ++ [runeChar]) (validCount + 1)
      else
        sanitize_loop rest sanitizedName validCount
  end.

Definition sanitize (name : string) : string :=
  let '(sanitizedName, validCount) :=
    sanitize_loop (utf8.range (TrimSpace name)) [] 0 in
  if validCount >? 0 then Trim (utf8.string_of_runes sanitizedName) "-"
  else "".

(** ** Default-route selection *)

(** The fields of [manifest.Application] that the file reads. *)
Record ManifestApplication : Type := mkManifestApplication {
  manifest_Name : string;
  manifest_Domain : string;
  manifest_Hostname : string;
  manifest_NoHostname : bool;
  manifest_RoutePath : string
}.

Definition calculateHostname (manifestApp : ManifestApplication)
    (domain : Domain) : string * option error :=
  let hostname := manifest_Hostname manifestApp in
  let hostname :=
    if decide (hostname = "") then manifest_Name manifestApp else hostname in
  let sanitizedHostname := sanitize hostname in
  if bool_decide (manifest_Hostname manifestApp ≠ "") && IsTCP domain then
    ("", Some HostnameWithTCPDomainError)
  else if manifest_NoHostname manifestApp && IsShared domain && IsHTTP domain
  then ("", Some NoHostnameAndSharedDomainError)
  else if manifest_NoHostname manifestApp then ("", None)
  else if IsHTTP domain then (sanitizedHostname, None)
  else ("", None).

Definition calculatePath (manifestApp : ManifestApplication)
    (domain : Domain) : string * option error :=
  if bool_decide (manifest_RoutePath manifestApp ≠ "") && IsTCP domain then
    ("", Some RoutePathWithTCPDomainError)
  else (manifest_RoutePath manifestApp, None).

(** ** The collaborators of the actor *)

(** One call through the external client, with what it answered. *)
Inductive Event : Type :=
  | EvMapRouteToApplication (routeGUID appGUID : string)
      (warnings : Warnings) (err : option error)
  | EvUnmapRouteFromApplication (routeGUID appGUID : string)
      (warnings : Warnings) (err : option error)
  | EvCreateRoute (route : Route) (generatePort : bool)
      (created : Route) (warnings : Warnings) (err : option error)
  | EvGetDomainsByNameAndOrganization (names : gset string)
      (orgGUID : string)
      (domains : list Domain) (warnings : Warnings) (err : option error)
  | EvFindRouteBoundToSpaceWithSettings (route : Route)
      (found : Route) (warnings : Warnings) (err : option error).

Definition Trace := list Event.

Definition ev_warnings (e : Event) : Warnings :=
  match e with
  | EvMapRouteToApplication _ _ w _ => w
  | EvUnmapRouteFromApplication _ _ w _ => w
  | EvCreateRoute _ _ _ w _ => w
  | EvGetDomainsByNameAndOrganization _ _ _ w _ => w
  | EvFindRouteBoundToSpaceWithSettings _ _ w _ => w
  end.

Definition ev_err (e : Event) : option error :=
  match e with
  | EvMapRouteToApplication _ _ _ err => err
  | EvUnmapRouteFromApplication _ _ _ err => err
  | EvCreateRoute _ _ _ _ err => err
  | EvGetDomainsByNameAndOrganization _ _ _ _ err => err
  | EvFindRouteBoundToSpaceWithSettings _ _ _ err => err
  end.

(** What [url.Parse] returns, by the three methods [parseURL] calls on
    it. *)
Record URL : Type := mkURL {
  url_Hostname : string;
  url_Port : string;
  url_RequestURI : string
}.

(** The receiver [actor Actor].  Its [V2Actor] field is the client of the
    remote platform: the answer to a call is any function of the call and
    of the calls made before it.  Its [startWithProtocol] field is a
    compiled regular expression.  [url.Parse], [NullInt.ParseStringValue],
    [Route.String] and [Route.Validate] are declared outside this file and
    come with the actor here. *)
Record Actor : Type := mkActor {
  V2Actor_MapRouteToApplication :
    Trace → string → string → Warnings * option error;
  V2Actor_UnmapRouteFromApplication :
    Trace → string → string → Warnings * option error;
  V2Actor_CreateRoute :
    Trace → Route → bool → Route * Warnings * option error;
  V2Actor_GetDomainsByNameAndOrganization :
    Trace → gset string → string → list Domain * Warnings * option error;
  V2Actor_FindRouteBoundToSpaceWithSettings :
    Trace → Route → Route * Warnings * option error;
  startWithProtocol_MatchString : string → bool;
  (** [startWithProtocol.ReplaceAllString(route, "")] *)
  startWithProtocol_strip : string → string;
  url_Parse : string → error + URL;
  NullInt_ParseStringValue : string → NullInt * option error;
  Route_String : Route → string;
  Route_Validate : Route → option error
}.

(** ** Calls through the client: a state monad over the trace of calls,
    with panics *)

Definition M (A : Type) : Type := Trace → outcome (A * Trace).

Global Instance M_ret : MRet M := λ A a tr, Returns (a, tr).
Global Instance M_bind : MBind M := λ A B f m tr,
  match m tr with
  | Returns (a, tr') => f a tr'
  | Panics => Panics
  end.

Definition panic {A} : M A := λ _, Panics.

Module V2Actor.

Definition MapRouteToApplication (actor : Actor)
    (routeGUID appGUID : string) : M (Warnings * option error) := λ tr,
  let '(warnings, err) :=
    V2Actor_MapRouteToApplication actor tr routeGUID appGUID in
  Returns ((warnings, err),
           tr ++ [EvMapRouteToApplication routeGUID appGUID warnings err]).

Definition UnmapRouteFromApplication (actor : Actor)
    (routeGUID appGUID : string) : M (Warnings * option error) := λ tr,
  let '(warnings, err) :=
    V2Actor_UnmapRouteFromApplication actor tr routeGUID appGUID in
  Returns ((warnings, err),
           tr ++ [EvUnmapRouteFromApplication routeGUID appGUID warnings err]).

Definition CreateRoute (actor : Actor) (route : Route)
    (generatePort : bool) : M (Route * Warnings * option error) := λ tr,
  let '(created, warnings, err) :=
    V2Actor_CreateRoute actor tr route generatePort in
  Returns ((created, warnings, err),
           tr ++ [EvCreateRoute route generatePort created warnings err]).

Definition GetDomainsByNameAndOrganization (actor : Actor)
    (names : gset string) (orgGUID : string)
    : M (list Domain * Warnings * option error) := λ tr,
  let '(domains, warnings, err) :=
    V2Actor_GetDomainsByNameAndOrganization actor tr names orgGUID in
  Returns ((domains, warnings, err),
           tr ++ [EvGetDomainsByNameAndOrganization names orgGUID
                    domains warnings err]).

Definition FindRouteBoundToSpaceWithSettings (actor : Actor)
    (route : Route) : M (Route * Warnings * option error) := λ tr,
  let '(found, warnings, err) :=
    V2Actor_FindRouteBoundToSpaceWithSettings actor tr route in
  Returns ((found, warnings, err),
           tr ++ [EvFindRouteBoundToSpaceWithSettings route
                    found warnings err]).

End V2Actor.

(** ** The configuration the reconciler works on *)

(** Modelled from the spec: [ApplicationConfig] and [Application] are
    declared outside this file; the spec gives a configuration an
    application (identifier and name), the desired routes and the current
    routes. *)
Record Application : Type := mkApplication {
  app_GUID : string;
  app_Name : string
}.

Record ApplicationConfig : Type := mkApplicationConfig {
  DesiredApplication : Application;
  CurrentRoutes : list Route;
  DesiredRoutes : list Route
}.

(** The zero value [ApplicationConfig{}]. *)
Definition ApplicationConfig_zero : ApplicationConfig :=
  mkApplicationConfig (mkApplication "" "") [] [].

Definition set_CurrentRoutes (routes : list Route)
    (config : ApplicationConfig) : ApplicationConfig :=
  mkApplicationConfig (DesiredApplication config) routes (DesiredRoutes config).

Definition set_DesiredRoutes (routes : list Route)
    (config : ApplicationConfig) : ApplicationConfig :=
  mkApplicationConfig (DesiredApplication config) (CurrentRoutes config) routes.

(** ** Route comparator *)

Fixpoint routeInListByGUID (route : Route) (routes : list Route) : bool :=
  match routes with
  | [] => false
  | r :: rest =>
      if decide (route_GUID r = route_GUID route) then true
      else routeInListByGUID route rest
  end.

Fixpoint routeInListByName_loop (actor : Actor) (strippedRoute : string)
    (routes : list Route) : Route * bool :=
  match routes with
  | [] => (Route_zero, false)
  | r :: rest =>
      if decide (Route_String actor r = strippedRoute) then (r, true)
      else routeInListByName_loop actor strippedRoute rest
  end.

Definition routeInListByName (actor : Actor) (route : string)
    (routes : list Route) : Route * bool :=
  let strippedRoute := startWithProtocol_strip actor route in
  routeInListByName_loop actor strippedRoute routes.

(** ** Route reconciler *)

Definition mapRouteToApp (actor : Actor) (route : Route) (appGUID : string)
    : M (Warnings * option error) :=
  '(warnings, err) ←
    V2Actor.MapRouteToApplication actor (route_GUID route) appGUID;
  match err with
  | Some (RouteInDifferentSpaceError _) =>
      mret (warnings,
            Some (RouteInDifferentSpaceError (Route_String actor route)))
  | _ => mret (warnings, err)
  end.

(** The loop of [MapRoutes] over the routes still to visit, with the two
    variables it updates; the last case is the code after the loop. *)
Fixpoint MapRoutes_loop (actor : Actor) (config : ApplicationConfig)
    (routes : list Route) (boundRoutes : bool) (allWarnings : Warnings)
    : M (ApplicationConfig * bool * Warnings * option error) :=
  match routes with
  | route :: rest =>
      if negb (routeInListByGUID route (CurrentRoutes config)) then
        '(warnings, err) ←
          mapRouteToApp actor route (app_GUID (DesiredApplication config));
        let allWarnings := allWarnings ++ warnings in
        match err with
        | Some e => mret (ApplicationConfig_zero, false, allWarnings, Some e)
        | None => MapRoutes_loop actor config rest true allWarnings
        end
      else MapRoutes_loop actor config rest boundRoutes allWarnings
  | [] =>
      let config := set_CurrentRoutes (DesiredRoutes config) config in
      mret (config, boundRoutes, allWarnings, None)
  end.

Definition MapRoutes (actor : Actor) (config : ApplicationConfig)
    : M (ApplicationConfig * bool * Warnings * option error) :=
  MapRoutes_loop actor config (DesiredRoutes config) false [].

Fixpoint UnmapRoutes_loop (actor : Actor) (config : ApplicationConfig)
    (appGUID : string) (routes : list Route) (warnings : Warnings)
    : M (ApplicationConfig * Warnings * option error) :=
  match routes with
  | route :: rest =>
      '(routeWarnings, err) ←
        V2Actor.UnmapRouteFromApplication actor (route_GUID route) appGUID;
      let warnings := warnings ++ routeWarnings in
      match err with
      | Some e => mret (config, warnings, Some e)
      | None => UnmapRoutes_loop actor config appGUID rest warnings
      end
  | [] =>
      let config := set_CurrentRoutes [] config in
      mret (config, warnings, None)
  end.

Definition UnmapRoutes (actor : Actor) (config : ApplicationConfig)
    : M (ApplicationConfig * Warnings * option error) :=
  let appGUID := app_GUID (DesiredApplication config) in
  UnmapRoutes_loop actor config appGUID (CurrentRoutes config) [].

Fixpoint CreateRoutes_loop (actor : Actor) (config : ApplicationConfig)
    (desired : list Route) (routes : list Route) (createdRoutes : bool)
    (allWarnings : Warnings)
    : M (ApplicationConfig * bool * Warnings * option error) :=
  match desired with
  | route :: rest =>
      if decide (route_GUID route = "") then
        '(createdRoute, warnings, err) ←
          V2Actor.CreateRoute actor route (RandomTCPPort route);
        let allWarnings := allWarnings ++ warnings in
        match err with
        | Some e => mret (ApplicationConfig_zero, true, allWarnings, Some e)
        | None =>
            CreateRoutes_loop actor config rest (routes ++ [createdRoute])
              true allWarnings
        end
      else
        CreateRoutes_loop actor config rest (routes ++ [route])
          createdRoutes allWarnings
  | [] =>
      let config := set_DesiredRoutes routes config in
      mret (config, createdRoutes, allWarnings, None)
  end.

Definition CreateRoutes (actor : Actor) (config : ApplicationConfig)
    : M (ApplicationConfig * bool * Warnings * option error) :=
  CreateRoutes_loop actor config (DesiredRoutes config) [] false [].

(** ** Route parser *)

Definition parseURL (actor : Actor) (route : string)
    : string * NullInt * string * option error :=
  let route :=
    if negb (startWithProtocol_MatchString actor route)
    then "http://" +:+ route else route in
  match url_Parse actor route with
  | inl err => ("", NullInt_zero, "", Some err)
  | inr parsedURL =>
      let path := url_RequestURI parsedURL in
      let path := if decide (path = "/") then "" else path in
      let '(port, err) :=
        NullInt_ParseStringValue actor (url_Port parsedURL) in
      (url_Hostname parsedURL, port, path, err)
  end.

(** ** Route calculator *)

(** First loop of [generatePossibleDomains]: the hostname of each
    route. *)
Fixpoint parseHostnames (actor : Actor) (routes : list string)
    (hostnames : list string) : list string * option error :=
  match routes with
  | [] => (hostnames, None)
  | route :: rest =>
      let '(host, _, _, err) := parseURL actor route in
      match err with
      | Some e => ([], Some e)
      | None => parseHostnames actor rest (hostnames ++ [host])
      end
  end.

(** Body of the second loop of [generatePossibleDomains]: the keys one
    hostname adds to the map [possibleDomains]. *)
Definition addPossibleDomains (possibleDomains : gset string)
    (route : string) : gset string :=
  let count := strings.Count route "." in
  let domains := strings.SplitN route "." count in
  foldl (λ possibleDomains i,
           let domain := strings.Join (drop i domains) "." in
           {[ domain ]} ∪ possibleDomains)
    possibleDomains (seq 0 (length domains)).

(** [generatePossibleDomains].  The source returns the keys of the map
    [possibleDomains] as a slice, in the unspecified order of a Go map
    iteration; the model returns the set of keys itself. *)
Definition generatePossibleDomains (actor : Actor) (routes : list string)
    : gset string * option error :=
  match parseHostnames actor routes [] with
  | (_, Some err) => (∅, Some err)
  | (hostnames, None) => (foldl addPossibleDomains ∅ hostnames, None)
  end.

Definition splitExistingRoutes (actor : Actor) (routes : list string)
    (existingRoutes : list Route) : list Route * list string :=
  let cachedRoutes :=
    foldl (λ cachedRoutes route, cachedRoutes ++ [route]) [] existingRoutes in
  let unknownRoutes :=
    foldl (λ unknownRoutes route,
             let '(_, found) := routeInListByName actor route existingRoutes in
             if negb found then unknownRoutes ++ [route] else unknownRoutes)
      [] routes in
  (cachedRoutes, unknownRoutes).

Definition findOrReturnPartialRouteWithSettings (actor : Actor)
    (route : Route) : M (Route * Warnings * option error) :=
  '(cachedRoute, warnings, err) ←
    V2Actor.FindRouteBoundToSpaceWithSettings actor route;
  match err with
  | Some RouteNotFoundError => mret (route, warnings, None)
  | _ => mret (cachedRoute, warnings, err)
  end.

(** The loop of [CalculateRoutes] over the unknown routes, with the two
    variables it updates; the last case is the code after the loop. *)
Fixpoint CalculateRoutes_loop (actor : Actor) (spaceGUID : string)
    (nameToFoundDomain : gmap string Domain) (unknownRoutes : list string)
    (calculatedRoutes : list Route) (allWarnings : Warnings)
    : M (list Route * Warnings * option error) :=
  match unknownRoutes with
  | route :: rest =>
      let '(root, port, path, parseErr) := parseURL actor route in
      match parseErr with
      | Some e => mret ([], allWarnings, Some e)
      | None =>
          match calculateRoute root nameToFoundDomain with
          | Panics => panic
          | Returns (host, domain, domainErr) =>
              match domainErr with
              | Some (DomainNotFoundError _) =>
                  mret ([], allWarnings, Some (NoMatchingDomainError route))
              | Some e => mret ([], allWarnings, Some e)
              | None =>
                  let potentialRoute :=
                    {| route_GUID := "";
                       route_Host := strings.Join host ".";
                       route_Domain := domain;
                       route_Path := path;
                       route_Port := port;
                       route_SpaceGUID := spaceGUID |} in
                  match Route_Validate actor potentialRoute with
                  | Some e => mret ([], allWarnings, Some e)
                  | None =>
                      '(calculatedRoute, routeWarnings, routeErr) ←
                        findOrReturnPartialRouteWithSettings actor
                          potentialRoute;
                      let allWarnings := allWarnings ++ routeWarnings in
                      match routeErr with
                      | Some e => mret ([], allWarnings, Some e)
                      | None =>
                          CalculateRoutes_loop actor spaceGUID
                            nameToFoundDomain rest
                            (calculatedRoutes ++ [calculatedRoute])
                            allWarnings
                      end
                  end
              end
          end
      end
  | [] => mret (calculatedRoutes, allWarnings, None)
  end.

Definition CalculateRoutes (actor : Actor) (routes : list string)
    (orgGUID spaceGUID : string) (existingRoutes : list Route)
    : M (list Route * Warnings * option error) :=
  let '(calculatedRoutes, unknownRoutes) :=
    splitExistingRoutes actor routes existingRoutes in
  match generatePossibleDomains actor unknownRoutes with
  | (_, Some err) => mret ([], [], Some err)
  | (possibleDomains, None) =>
      let allWarnings : Warnings := [] in
      '(foundDomains, warnings, err) ←
        V2Actor.GetDomainsByNameAndOrganization actor possibleDomains orgGUID;
      let allWarnings := allWarnings ++ warnings in
      match err with
      | Some e => mret ([], allWarnings, Some e)
      | None =>
          let nameToFoundDomain : gmap string Domain :=
            foldl (λ nameToFoundDomain foundDomain,
                     <[domain_Name foundDomain := foundDomain]>
                       nameToFoundDomain)
              ∅ foundDomains in
          CalculateRoutes_loop actor spaceGUID nameToFoundDomain
            unknownRoutes calculatedRoutes allWarnings
      end
  end.

(** ** Default route of an application *)

(** [routeInListBySettings]: the first route of the list with the host,
    path, port, space and domain GUID of [route]. *)
Fixpoint routeInListBySettings (route : Route) (routes : list Route)
    : Route * bool :=
  match routes with
  | [] => (Route_zero, false)
  | r :: rest =>
      if bool_decide (route_Host r = route_Host route)
         && bool_decide (route_Path r = route_Path route)
         && bool_decide (route_Port r = route_Port route)
         && bool_decide (route_SpaceGUID r = route_SpaceGUID route)
         && bool_decide (domain_GUID (route_Domain r)
                         = domain_GUID (route_Domain route))
      then (r, true)
      else routeInListBySettings route rest
  end.

(** The receiver [actor Actor] with the two collaborators that only the
    default-route functions call: [actor.DefaultDomain], a method declared
    in another file of the package, and [V2Actor.GetApplicationRoutes].
    Both are left open: any computation over the trace of calls. *)
Record PushActor : Type := mkPushActor {
  push_actor : Actor;
  DefaultDomain : string → M (Domain * Warnings * option error);
  V2Actor_GetApplicationRoutes :
    string → M (list Route * Warnings * option error)
}.

Definition calculateDomain (pa : PushActor)
    (manifestApp : ManifestApplication) (orgGUID : string)
    : M (Domain * Warnings * option error) :=
  if decide (manifest_Domain manifestApp = "") then
    '(desiredDomain, warnings, err) ← DefaultDomain pa orgGUID;
    match err with
    | Some e => mret (Domain_zero, warnings, Some e)
    | None => mret (desiredDomain, warnings, None)
    end
  else
    '(desiredDomains, getDomainWarnings, getDomainsErr) ←
      V2Actor.GetDomainsByNameAndOrganization (push_actor pa)
        {[ manifest_Domain manifestApp ]} orgGUID;
    let warnings : Warnings := [] ++ getDomainWarnings in
    match getDomainsErr with
    | Some e => mret (Domain_zero, warnings, Some e)
    | None =>
        match desiredDomains with
        | [] =>
            mret (Domain_zero, warnings,
                  Some (DomainNotFoundError (manifest_Domain manifestApp)))
        | desiredDomain :: _ => mret (desiredDomain, warnings, None)
        end
    end.

Definition getDefaultRoute (pa : PushActor) (orgGUID spaceGUID : string)
    (appName : string) : M (Route * Warnings * option error) :=
  '(defaultDomain, domainWarnings, err) ← DefaultDomain pa orgGUID;
  match err with
  | Some e => mret (Route_zero, domainWarnings, Some e)
  | None =>
      mret ({| route_GUID := "";
               route_Host := appName;
               route_Domain := defaultDomain;
               route_Path := "";
               route_Port := NullInt_zero;
               route_SpaceGUID := spaceGUID |}, domainWarnings, None)
  end.

Definition GetGeneratedRoute (pa : PushActor)
    (manifestApp : ManifestApplication) (orgGUID spaceGUID : string)
    (knownRoutes : list Route) : M (Route * Warnings * option error) :=
  '(desiredDomain, warnings, err) ← calculateDomain pa manifestApp orgGUID;
  match err with
  | Some e => mret (Route_zero, warnings, Some e)
  | None =>
      let '(desiredHostname, err) :=
        calculateHostname manifestApp desiredDomain in
      match err with
      | Some e => mret (Route_zero, warnings, Some e)
      | None =>
          let '(desiredPath, err) := calculatePath manifestApp desiredDomain in
          match err with
          | Some e => mret (Route_zero, warnings, Some e)
          | None =>
              let defaultRoute :=
                {| route_GUID := "";
                   route_Host := desiredHostname;
                   route_Domain := desiredDomain;
                   route_Path := desiredPath;
                   route_Port := NullInt_zero;
                   route_SpaceGUID := spaceGUID |} in
              if IsTCP desiredDomain then mret (defaultRoute, warnings, None)
              else
                let '(cachedRoute, found) :=
                  routeInListBySettings defaultRoute knownRoutes in
                if negb found then
                  '(route, routeWarnings, err) ←
                    V2Actor.FindRouteBoundToSpaceWithSettings (push_actor pa)
                      defaultRoute;
                  match err with
                  | Some RouteNotFoundError =>
                      mret (defaultRoute, warnings ++ routeWarnings, None)
                  | _ => mret (route, warnings ++ routeWarnings, err)
                  end
                else mret (cachedRoute, warnings, None)
          end
      end
  end.

(** The last step of [CreateAndMapDefaultApplicationRoute]: the route is
    mapped to the application. *)
Definition mapDefaultRoute (pa : PushActor) (spaceRoute : Route)
    (app : Application) (warnings : Warnings) : M (Warnings * option error) :=
  '(mapWarnings, err) ←
    V2Actor.MapRouteToApplication (push_actor pa) (route_GUID spaceRoute)
      (app_GUID app);
  let warnings := warnings ++ mapWarnings in
  mret (warnings, err).

Definition CreateAndMapDefaultApplicationRoute (pa : PushActor)
    (orgGUID spaceGUID : string) (app : Application)
    : M (Warnings * option error) :=
  let warnings : Warnings := [] in
  '(defaultRoute, domainWarnings, err) ←
    getDefaultRoute pa orgGUID spaceGUID (app_Name app);
  let warnings := warnings ++ domainWarnings in
  match err with
  | Some e => mret (warnings, Some e)
  | None =>
      '(boundRoutes, appRouteWarnings, err) ←
        V2Actor_GetApplicationRoutes pa (app_GUID app);
      let warnings := warnings ++ appRouteWarnings in
      match err with
      | Some e => mret (warnings, Some e)
      | None =>
          let '(_, routeAlreadyBound) :=
            routeInListBySettings defaultRoute boundRoutes in
          if routeAlreadyBound then mret (warnings, err)
          else
            '(spaceRoute, spaceRouteWarnings, err) ←
              V2Actor.FindRouteBoundToSpaceWithSettings (push_actor pa)
                defaultRoute;
            let warnings := warnings ++ spaceRouteWarnings in
            match err with
            | Some RouteNotFoundError =>
                '(spaceRoute, createRouteWarning, err) ←
                  V2Actor.CreateRoute (push_actor pa) defaultRoute false;
                let warnings := warnings ++ createRouteWarning in
                match err with
                | Some e => mret (warnings, Some e)
                | None => mapDefaultRoute pa spaceRoute app warnings
                end
            | Some e => mret (warnings, Some e)
            | None => mapDefaultRoute pa spaceRoute app warnings
            end
      end
  end.

(** * Specification vocabulary

    The notions the properties below are stated with. *)

(** ** Dot-delimited suffixes and labels of a hostname *)

(** [s] is a dot-delimited suffix of [h]: [h] itself, or what follows one
    of the dots of [h]. *)
Definition dot_suffix (s h : string) : Prop :=
  s = h ∨ ∃ p, h = p +:+ "." +:+ s.

(** The labels of a hostname: [strings.Split(h, ".")]. *)
Definition labels (h : string) : list string := strings.SplitN h "." (-1).

(** ** Contracts of the domain matcher *)

(** The result of [calculateRoute h D] meets the longest-suffix contract,
    the candidate suffixes being those with a dot of their own. *)
Definition resolves (h : string) (D : gmap string Domain)
    (r : outcome (list string * Domain * option error)) : Prop :=
  match r with
  | Returns (hostLabels, d, None) =>
      ∃ s, D !! s = Some d
           ∧ dot_suffix s h ∧ 1 ≤ strings.Count s "."
           ∧ strings.Join (hostLabels ++ [s]) "." = h
           ∧ Forall (λ l, strings.Count l "." = 0) hostLabels
           ∧ ∀ s', dot_suffix s' h → 1 ≤ strings.Count s' "." →
                   is_Some (D !! s') →
                   (String.length s' ≤ String.length s)%nat
  | Returns (_, _, Some e) =>
      (∃ name, e = DomainNotFoundError name)
      ∧ ∀ s', dot_suffix s' h → 1 ≤ strings.Count s' "." → D !! s' = None
  | Panics => False
  end.

(** The same contract with every dot-delimited suffix of [h] as a
    candidate, the top-level label included. *)
Definition resolves_any_suffix (h : string) (D : gmap string Domain)
    (r : outcome (list string * Domain * option error)) : Prop :=
  match r with
  | Returns (hostLabels, d, None) =>
      ∃ s, D !! s = Some d
           ∧ dot_suffix s h
           ∧ strings.Join (hostLabels ++ [s]) "." = h
           ∧ ∀ s', dot_suffix s' h → is_Some (D !! s') →
                   (String.length s' ≤ String.length s)%nat
  | Returns (_, _, Some e) =>
      (∃ name, e = DomainNotFoundError name)
      ∧ ∀ s', dot_suffix s' h → D !! s' = None
  | Panics => False
  end.

(** ** The sanitizer, as specified *)

(** The sanitizer as the specification words it: each character of the
    trimmed name is mapped on its own, lowercase letters and digits to
    themselves, uppercase letters to their lowercase, space and hyphen to
    a hyphen, every other character to nothing. *)
Definition sanitize_char (r : rune) : list rune :=
  if between "a" r "z" then [r]
  else if between "A" r "Z" then [r + 32]
  else if between "0" r "9" then [r]
  else if (r =? rune_of " ") || (r =? rune_of "-") then [rune_of "-"]
  else [].

Definition letter_or_digit (r : rune) : bool :=
  between "a" r "z" || between "A" r "Z" || between "0" r "9".

Definition sanitize_spec (name : string) : string :=
  let emitted := flat_map sanitize_char (utf8.range (TrimSpace name)) in
  if existsb letter_or_digit emitted
  then Trim (utf8.string_of_runes emitted) "-"
  else "".

(** The bytes of a host name fragment: lowercase letters, digits and the
    hyphen. *)
Definition host_byte (c : ascii) : Prop :=
  let b := utf8.byte_val c in
  (97 ≤ b ∧ b ≤ 122) ∨ (48 ≤ b ∧ b ≤ 57) ∨ b = 45.

Fixpoint all_bytes (P : ascii → Prop) (s : string) : Prop :=
  match s with
  | EmptyString => True
  | String c s' => P c ∧ all_bytes P s'
  end.

Definition first_byte (s : string) : option ascii :=
  match s with
  | EmptyString => None
  | String c _ => Some c
  end.

Fixpoint last_byte (s : string) : option ascii :=
  match s with
  | EmptyString => None
  | String c s' =>
      match s' with
      | EmptyString => Some c
      | String _ _ => last_byte s'
      end
  end.

(** ** Calls made by the reconciler *)

(** A call that the client answered without an error. *)
Definition ev_ok (e : Event) : Prop := ev_err e = None.

(** The error [mapRouteToApp] hands on for the error [e] of the client. *)
Definition mapError (actor : Actor) (route : Route) (e : error) : error :=
  match e with
  | RouteInDifferentSpaceError _ =>
      RouteInDifferentSpaceError (Route_String actor route)
  | _ => e
  end.

(** The routes of [routes] with no entry of the same GUID among the
    current routes, in order: those [MapRoutes] has to bind. *)
Definition unbound (config : ApplicationConfig) (routes : list Route)
    : list Route :=
  filter (λ r, routeInListByGUID r (CurrentRoutes config) = false) routes.

Definition is_map_call (appGUID : string) (r : Route) (ev : Event) : Prop :=
  ∃ ws err, ev = EvMapRouteToApplication (route_GUID r) appGUID ws err.

(** What a run of the mapping loop returns, for the calls [evs] it
    made. *)
Definition map_result (actor : Actor) (config : ApplicationConfig)
    (todo : list Route) (boundBefore : bool)
    (res : ApplicationConfig * bool * Warnings * option error)
    (evs : Trace) : Prop :=
  let '(config', bound, _, err) := res in
  Forall2 (is_map_call (app_GUID (DesiredApplication config)))
    (take (length evs) todo) evs
  ∧ match err with
    | Some e =>
        config' = ApplicationConfig_zero ∧ bound = false
        ∧ ∃ evs0 ev r e',
            evs = evs0 ++ [ev] ∧ Forall ev_ok evs0 ∧ ev_err ev = Some e'
            ∧ todo !! length evs0 = Some r ∧ e = mapError actor r e'
    | None =>
        config' = set_CurrentRoutes (DesiredRoutes config) config
        ∧ Forall ev_ok evs ∧ length evs = length todo
        ∧ bound = boundBefore || bool_decide (evs ≠ [])
    end.

Definition is_unmap_call (appGUID : string) (r : Route) (ev : Event)
    : Prop :=
  ∃ ws err, ev = EvUnmapRouteFromApplication (route_GUID r) appGUID ws err.

(** The desired routes that do not exist yet: those with an empty GUID. *)
Definition to_create (routes : list Route) : list Route :=
  filter (λ r, route_GUID r = "") routes.

Definition is_create_call (r : Route) (ev : Event) : Prop :=
  ∃ created ws err, ev = EvCreateRoute r (RandomTCPPort r) created ws err.

(** The output sequence: each route with an empty GUID replaced by the
    route the client returned for it, the others unchanged. *)
Fixpoint with_created (desired : list Route) (evs : Trace) : list Route :=
  match desired with
  | [] => []
  | r :: rest =>
      if decide (route_GUID r = "") then
        match evs with
        | EvCreateRoute _ _ created _ _ :: evs' =>
            created :: with_created rest evs'
        | _ => []
        end
      else r :: with_created rest evs
  end.

(** ** Results of the route calculator *)

(** The map [nameToFoundDomain] that [CalculateRoutes] builds from the
    domains the client found. *)
Definition nameToFoundDomain (foundDomains : list Domain)
    : gmap string Domain :=
  foldl (λ m d, <[domain_Name d := d]> m) ∅ foundDomains.

(** The raw routes that match no existing route by name. *)
Definition unknown_routes (actor : Actor) (routes : list string)
    (existingRoutes : list Route) : list string :=
  filter (λ raw, (routeInListByName actor raw existingRoutes).2 = false)
    routes.

(** The raw routes that match an existing route by name, each as the
    existing route it matches. *)
Definition passed_through (actor : Actor) (routes : list string)
    (existingRoutes : list Route) : list Route :=
  omap (λ raw, let '(r, found) := routeInListByName actor raw existingRoutes in
               if found then Some r else None) routes.

(** The route [r] was resolved from the raw route [raw]: the raw route
    parses, its hostname resolves against the known domains, the
    candidate route built from the parts is valid, and [r] is the route
    the client found for the candidate, or the candidate itself (with
    no GUID) when the client found none. *)
Definition resolved_from (actor : Actor) (spaceGUID : string)
    (D : gmap string Domain) (evs : Trace) (raw : string) (r : Route)
    : Prop :=
  ∃ root port path hostLabels domain,
    parseURL actor raw = (root, port, path, None)
    ∧ calculateRoute root D = Returns (hostLabels, domain, None)
    ∧ let potentialRoute :=
        mkRoute "" (strings.Join hostLabels ".") domain path port
          spaceGUID in
      Route_Validate actor potentialRoute = None
      ∧ ∃ found ws err,
          EvFindRouteBoundToSpaceWithSettings potentialRoute found ws err
          ∈ evs
          ∧ ((err = Some RouteNotFoundError ∧ r = potentialRoute)
             ∨ (err = None ∧ r = found)).

(** What a run of the resolution loop returns. *)
Definition loop_result (actor : Actor) (spaceGUID : string)
    (D : gmap string Domain)
    (unknownRoutes : list string) (calculatedRoutes : list Route)
    (ws0 : Warnings) (tr : Trace)
    (res : outcome (list Route * Warnings * option error * Trace)) : Prop :=
  match res with
  | Returns (result, warnings, None, tr') =>
      ∃ resolved evs,
        result = calculatedRoutes ++ resolved ∧ tr' = tr ++ evs
        ∧ warnings = ws0 ++ flat_map ev_warnings evs
        ∧ Forall2 (resolved_from actor spaceGUID D evs) unknownRoutes resolved
  | Returns (result, warnings, Some _, tr') =>
      result = []
      ∧ ∃ evs, tr' = tr ++ evs
               ∧ warnings = ws0 ++ flat_map ev_warnings evs
  | Panics =>
      ∃ raw root port path,
        raw ∈ unknownRoutes
        ∧ parseURL actor raw = (root, port, path, None)
        ∧ strings.Count root "." = 0
  end.

(** [e] is the error of the first route of [routes] that [parseURL] does
    not parse. *)
Definition first_parse_error (actor : Actor) (routes : list string)
    (e : error) : Prop :=
  ∃ i raw,
    routes !! i = Some raw ∧ (parseURL actor raw).2 = Some e
    ∧ ∀ j raw', (j < i)%nat → routes !! j = Some raw' →
                (parseURL actor raw').2 = None.

(** [ev] is the route lookup that [CalculateRoutes] makes for the raw
    route [raw]: a lookup of the candidate route built from the parts of
    [raw]. *)
Definition lookup_for (actor : Actor) (spaceGUID : string)
    (D : gmap string Domain) (raw : string) (ev : Event) : Prop :=
  ∃ root port path hostLabels domain found ws err,
    parseURL actor raw = (root, port, path, None)
    ∧ calculateRoute root D = Returns (hostLabels, domain, None)
    ∧ ev = EvFindRouteBoundToSpaceWithSettings
             (mkRoute "" (strings.Join hostLabels ".") domain path port
                spaceGUID)
             found ws err.

(** The runes of the bytes of a host name fragment. *)
Definition host_rune (r : rune) : Prop :=
  (97 ≤ r ∧ r ≤ 122) ∨ (48 ≤ r ∧ r ≤ 57) ∨ r = 45.

(** The two routes have the same host, path, port, space and domain
    GUID: the fields [routeInListBySettings] compares. *)
Definition same_settings (r route : Route) : Prop :=
  route_Host r = route_Host route
  ∧ route_Path r = route_Path route
  ∧ route_Port r = route_Port route
  ∧ route_SpaceGUID r = route_SpaceGUID route
  ∧ domain_GUID (route_Domain r) = domain_GUID (route_Domain route).

(** The calls [CreateAndMapDefaultApplicationRoute] makes for the default
    route once it knows that the route is not bound to the application,
    with the error it returns: a lookup of the route; then, when the route
    is not found, its creation, with no random port; then the mapping of
    the route found or created. *)
Definition default_route_calls (defaultRoute : Route) (appGUID : string)
    (evs : Trace) (err : option error) : Prop :=
  ∃ found ws1 lookupErr,
    let lookup :=
      EvFindRouteBoundToSpaceWithSettings defaultRoute found ws1 lookupErr in
    match lookupErr with
    | None =>
        ∃ ws2,
          evs = [lookup;
                 EvMapRouteToApplication (route_GUID found) appGUID ws2 err]
    | Some RouteNotFoundError =>
        ∃ created ws2 createErr,
          let create :=
            EvCreateRoute defaultRoute false created ws2 createErr in
          match createErr with
          | Some e => evs = [lookup; create] ∧ err = Some e
          | None =>
              ∃ ws3,
                evs = [lookup; create;
                       EvMapRouteToApplication (route_GUID created) appGUID
                         ws3 err]
          end
    | Some e => evs = [lookup] ∧ err = Some e
    end.

(** ** A test double *)

(** A test double of the collaborators, for the concrete runs below:
    routes are written without a scheme, port and path; the platform
    knows the domains [known]; binding, unbinding or creating the route of
    GUID or host [failing] fails; looking a route up finds nothing. *)
Module Demo.

Definition strip (s : string) : string :=
  if String.prefix "http://" s then String.substring 7 (String.length s - 7) s
  else s.

Definition call (failing guid : string) : Warnings * option error :=
  (["warning " +:+ guid],
   if decide (guid = failing) then Some (OtherError "failed") else None).

Definition actor (known : list Domain) (failing : string) : Actor := {|
  V2Actor_MapRouteToApplication := λ _ routeGUID _, call failing routeGUID;
  V2Actor_UnmapRouteFromApplication := λ _ routeGUID _, call failing routeGUID;
  V2Actor_CreateRoute := λ _ route _,
    (mkRoute ("guid-" +:+ route_Host route) (route_Host route)
       (route_Domain route) (route_Path route) (route_Port route)
       (route_SpaceGUID route),
     (call failing (route_Host route)).1,
     (call failing (route_Host route)).2);
  V2Actor_GetDomainsByNameAndOrganization := λ _ names _,
    (filter (λ d, domain_Name d ∈ names) known, [], None);
  V2Actor_FindRouteBoundToSpaceWithSettings := λ _ _,
    (Route_zero, [], Some RouteNotFoundError);
  startWithProtocol_MatchString := String.prefix "http://";
  startWithProtocol_strip := strip;
  url_Parse := λ s, inr (mkURL (strip s) "" "/");
  NullInt_ParseStringValue := λ _, (NullInt_zero, None);
  Route_String := λ r,
    if decide (route_Host r = "") then domain_Name (route_Domain r)
    else route_Host r +:+ "." +:+ domain_Name (route_Domain r);
  Route_Validate := λ _, None
|}.

Definition example_com : Domain := mkDomain "d1" "example.com" HTTP Shared.
Definition com : Domain := mkDomain "d2" "com" HTTP Shared.

Definition route (guid host : string) : Route :=
  mkRoute guid host example_com "" NullInt_zero "space".

(** The same double behind a platform that cannot be reached: every
    lookup of domains fails. *)
Definition offline : Actor := {|
  V2Actor_MapRouteToApplication :=
    V2Actor_MapRouteToApplication (actor [] "");
  V2Actor_UnmapRouteFromApplication :=
    V2Actor_UnmapRouteFromApplication (actor [] "");
  V2Actor_CreateRoute := V2Actor_CreateRoute (actor [] "");
  V2Actor_GetDomainsByNameAndOrganization := λ _ _ _,
    ([], ["lookup failed"], Some (OtherError "lookup failed"));
  V2Actor_FindRouteBoundToSpaceWithSettings :=
    V2Actor_FindRouteBoundToSpaceWithSettings (actor [] "");
  startWithProtocol_MatchString := startWithProtocol_MatchString (actor [] "");
  startWithProtocol_strip := startWithProtocol_strip (actor [] "");
  url_Parse := url_Parse (actor [] "");
  NullInt_ParseStringValue := NullInt_ParseStringValue (actor [] "");
  Route_String := Route_String (actor [] "");
  Route_Validate := Route_Validate (actor [] "")
|}.

Definition localhost : Domain := mkDomain "d4" "localhost" HTTP Shared.

End Demo.

(** A test double of the two collaborators of the default-route
    functions: the default domain of every organisation is
    [defaultDomain], the routes of every application are [bound]; neither
    makes a call that the trace records. *)
Module DemoPush.

Definition pushActor (defaultDomain : Domain) (bound : list Route)
    (known : list Domain) (failing : string) : PushActor := {|
  push_actor := Demo.actor known failing;
  DefaultDomain := λ _, mret (defaultDomain, ["default domain"], None);
  V2Actor_GetApplicationRoutes := λ _, mret (bound, ["routes"], None)
|}.

Definition tcp_example_com : Domain :=
  mkDomain "d3" "tcp.example.com" TCP Shared.

End DemoPush.

(** * Properties *)

(** ** Strings *)

Section string_facts.

Implicit Types (s a b p q : string) (c : ascii).

Lemma sapp_nil s : "" +:+ s = s.
Proof. reflexivity. Qed.

Lemma sapp_cons c a b : String c a +:+ b = String c (a +:+ b).
Proof. reflexivity. Qed.

Lemma sapp_nil_r s : s +:+ "" = s.
Proof. induction s as [|c s IH]; [done|]. by rewrite sapp_cons, IH. Qed.

Lemma sapp_assoc a b p : (a +:+ b) +:+ p = a +:+ (b +:+ p).
Proof. induction a as [|c a IH]; [done|]. by rewrite !sapp_cons, IH. Qed.

Lemma sapp_length a b :
  String.length (a +:+ b) = (String.length a + String.length b)%nat.
Proof. induction a as [|c a IH]; [done|]. rewrite sapp_cons. simpl. lia. Qed.

Lemma Count_nonneg s c : 0 ≤ strings.Count s c.
Proof. induction s as [|x s IH]; simpl; [lia|]. case_decide; lia. Qed.

Lemma Count_le_len s c : strings.Count s c ≤ strings.len s.
Proof.
  unfold strings.len. induction s as [|x s IH]; simpl; [lia|].
  case_decide; lia.
Qed.

Lemma Count_app a b c :
  strings.Count (a +:+ b) c = strings.Count a c + strings.Count b c.
Proof.
  induction a as [|x a IH]; [rewrite sapp_nil; simpl; lia|].
  rewrite sapp_cons. simpl. rewrite IH. lia.
Qed.

Lemma Count_sep_app a b c :
  strings.Count (a +:+ String c b) c
  = strings.Count a c + 1 + strings.Count b c.
Proof. rewrite Count_app. simpl. rewrite decide_True by done. lia. Qed.

Lemma cut_None s c : strings.cut s c = None ↔ strings.Count s c = 0.
Proof.
  induction s as [|x s IH]; simpl; [done|].
  pose proof (Count_nonneg s c).
  case_decide; [split; [done|lia]|].
  destruct (strings.cut s c) as [[a b]|]; split.
  - done.
  - intros. assert (strings.Count s c = 0) as E by lia.
    apply IH in E. done.
  - intros _. assert (strings.Count s c = 0) by by apply IH. lia.
  - done.
Qed.

Lemma cut_Some s c a b :
  strings.cut s c = Some (a, b) →
  s = a +:+ String c b ∧ strings.Count a c = 0.
Proof.
  revert a. induction s as [|x s IH]; intros a; simpl; [done|].
  case_decide as Hx.
  - intros [= <- <-]. by subst.
  - destruct (strings.cut s c) as [[a' b']|] eqn:E; [|done].
    intros [= <- <-]. destruct (IH a' eq_refl) as [-> Ha].
    split; [done|]. simpl. rewrite decide_False by done. lia.
Qed.

Lemma cut_app a b c :
  strings.Count a c = 0 → strings.cut (a +:+ String c b) c = Some (a, b).
Proof.
  induction a as [|x a IH]; simpl.
  - intros _. by rewrite decide_True.
  - pose proof (Count_nonneg a c).
    case_decide; [lia|]. intros. by rewrite IH by lia.
Qed.

Lemma cut_is_Some s c : 1 ≤ strings.Count s c → is_Some (strings.cut s c).
Proof.
  intros H. destruct (strings.cut s c) eqn:E; [done|].
  apply cut_None in E. lia.
Qed.

(** Two ways of writing one string around a separator: the one whose
    left part has no separator cuts first. *)
Lemma sep_app_inv a b p q c :
  a +:+ String c b = p +:+ String c q →
  strings.Count a c = 0 →
  (p = a ∧ q = b) ∨ ∃ r, p = a +:+ String c r ∧ b = r +:+ String c q.
Proof.
  revert p. induction a as [|x a IH]; intros p.
  - rewrite sapp_nil. destruct p as [|y p].
    + rewrite sapp_nil. intros [= ->]. by left.
    + rewrite sapp_cons. intros [= <- ->] _. right. by exists p.
  - rewrite sapp_cons. simpl. pose proof (Count_nonneg a c).
    case_decide as Hx; [lia|]. intros E Ha.
    destruct p as [|y p].
    + rewrite sapp_nil in E. by injection E as -> _.
    + rewrite sapp_cons in E. injection E as <- E.
      destruct (IH p E ltac:(lia)) as [[-> ->]|(r & -> & ->)].
      * by left.
      * right. by exists r.
Qed.

End string_facts.

(** ** Domain matcher: [splitHost] and the recursion of [calculateRoute] *)

Section split_host.

Implicit Types (url route host domain a b : string).

Lemma SplitN_2_no_dot url :
  strings.Count url "." = 0 → strings.SplitN url "." 2 = [url].
Proof.
  intros H0. unfold strings.SplitN.
  rewrite decide_False by lia. rewrite (decide_False (P := 2 < 0)) by lia.
  case_decide as Hlen.
  - replace (Z.to_nat (strings.len url + 1 - 1)) with 0%nat; [done|].
    unfold strings.len in *. lia.
  - change (Z.to_nat (2 - 1)) with 1%nat. simpl.
    by apply cut_None in H0 as ->.
Qed.

Lemma SplitN_2_cut url a b :
  strings.cut url "." = Some (a, b) → strings.SplitN url "." 2 = [a; b].
Proof.
  intros Hcut. unfold strings.SplitN.
  rewrite decide_False by lia. rewrite (decide_False (P := 2 < 0)) by lia.
  destruct (cut_Some _ _ _ _ Hcut) as [Hurl _].
  rewrite decide_False.
  - change (Z.to_nat (2 - 1)) with 1%nat. simpl. by rewrite Hcut.
  - unfold strings.len. rewrite Hurl, sapp_length. simpl. lia.
Qed.

Lemma splitHost_no_dot url :
  strings.Count url "." = 0 → splitHost url = Panics.
Proof.
  intros H0. unfold splitHost. rewrite decide_False by lia.
  by rewrite SplitN_2_no_dot.
Qed.

Lemma splitHost_one_dot url :
  strings.Count url "." = 1 → splitHost url = Returns ("", url).
Proof. intros H1. unfold splitHost. by rewrite decide_True. Qed.

Lemma splitHost_dots url :
  2 ≤ strings.Count url "." →
  ∃ a b, strings.cut url "." = Some (a, b) ∧ splitHost url = Returns (a, b).
Proof.
  intros H2. destruct (cut_is_Some url ".") as [[a b] Hcut]; [lia|].
  exists a, b. split; [done|]. unfold splitHost.
  rewrite decide_False by lia. by rewrite (SplitN_2_cut _ _ _ Hcut).
Qed.

(** The three cases of [splitHost], by the number of dots. *)
Lemma splitHost_cases url :
  (strings.Count url "." = 0 ∧ splitHost url = Panics)
  ∨ (strings.Count url "." = 1 ∧ splitHost url = Returns ("", url))
  ∨ (2 ≤ strings.Count url "." ∧
     ∃ a b, strings.cut url "." = Some (a, b)
            ∧ splitHost url = Returns (a, b)).
Proof.
  pose proof (Count_nonneg url ".").
  destruct (decide (strings.Count url "." = 0));
    [left; eauto using splitHost_no_dot|].
  destruct (decide (strings.Count url "." = 1));
    [right; left; eauto using splitHost_one_dot|].
  right; right. split; [lia|]. apply splitHost_dots. lia.
Qed.

(** The recursive call of [calculateRoute] is on a shorter string. *)
Lemma splitHost_shorter url host domain :
  splitHost url = Returns (host, domain) → host ≠ "" →
  (String.length domain < String.length url)%nat.
Proof.
  intros Hs Hne.
  destruct (splitHost_cases url) as [[_ E]|[[_ E]|[_ (a & b & Hcut & E)]]];
    rewrite E in Hs; simplify_eq.
  destruct (cut_Some _ _ _ _ Hcut) as [-> _].
  rewrite sapp_length. simpl. lia.
Qed.

Lemma calculateRoute_fuel_mono fuel fuel' route D r :
  calculateRoute_fuel fuel route D = Some r → (fuel ≤ fuel')%nat →
  calculateRoute_fuel fuel' route D = Some r.
Proof.
  revert fuel' route r.
  induction fuel as [|fuel IH]; intros fuel' route r; [done|].
  intros Hr Hle. destruct fuel' as [|fuel']; [lia|].
  simpl in *. destruct (splitHost route) as [[host domain]|]; [|done].
  destruct (D !! route); [done|]. case_decide; [done|].
  destruct (calculateRoute_fuel fuel domain D) as [r'|] eqn:E; [|done].
  by rewrite (IH fuel' domain r' E) by lia.
Qed.

Lemma calculateRoute_fuel_enough fuel route D :
  (String.length route < fuel)%nat →
  is_Some (calculateRoute_fuel fuel route D).
Proof.
  revert route. induction fuel as [|fuel IH]; intros route Hlt; [lia|].
  simpl. destruct (splitHost route) as [[host domain]|] eqn:Hs; [|done].
  destruct (D !! route); [done|]. case_decide as Hhost; [done|].
  pose proof (splitHost_shorter _ _ _ Hs Hhost).
  destruct (IH domain) as [[[[hosts found] err]|] ->]; [lia|done..].
Qed.

(** The recursion equation of [calculateRoute], as the source has it. *)
Lemma calculateRoute_unfold route D :
  calculateRoute route D =
  match splitHost route with
  | Panics => Panics
  | Returns (host, domain) =>
      match D !! route with
      | Some found => Returns ([], found, None)
      | None =>
          if decide (host = "")
          then Returns ([], Domain_zero, Some (DomainNotFoundError route))
          else
            match calculateRoute domain D with
            | Panics => Panics
            | Returns (hosts, foundDomain, err) =>
                Returns (host :: hosts, foundDomain, err)
            end
      end
  end.
Proof.
  unfold calculateRoute at 1. simpl.
  destruct (splitHost route) as [[host domain]|] eqn:Hs; [|done].
  destruct (D !! route); [done|]. case_decide as Hhost; [done|].
  pose proof (splitHost_shorter _ _ _ Hs Hhost).
  unfold calculateRoute.
  destruct (calculateRoute_fuel_enough (S (String.length domain)) domain D)
    as [r Hr]; [lia|].
  rewrite Hr.
  rewrite (calculateRoute_fuel_mono _ (String.length route) _ _ _ Hr) by lia.
  by destruct r as [[[hosts found] err]|].
Qed.

End split_host.

(** ** Dot-delimited suffixes and labels *)

Section suffixes.

Implicit Types (s h a b p : string) (k i : nat).

Lemma dot_suffix_refl h : dot_suffix h h.
Proof. by left. Qed.

Lemma dot_suffix_Count s h :
  dot_suffix s h → s = h ∨ strings.Count s "." < strings.Count h ".".
Proof.
  intros [->|[p ->]]; [by left|right].
  change (p +:+ "." +:+ s) with (p +:+ String "." s).
  rewrite Count_sep_app. pose proof (Count_nonneg p "."). lia.
Qed.

Lemma dot_suffix_length s h :
  dot_suffix s h → (String.length s ≤ String.length h)%nat.
Proof.
  intros [->|[p ->]]; [done|].
  change (p +:+ "." +:+ s) with (p +:+ String "." s).
  rewrite sapp_length. simpl. lia.
Qed.

Lemma dot_suffix_cut s h a b :
  strings.cut h "." = Some (a, b) →
  dot_suffix s h ↔ s = h ∨ dot_suffix s b.
Proof.
  intros Hcut. destruct (cut_Some _ _ _ _ Hcut) as [-> Ha]. split.
  - intros [->|[p Hp]]; [by left|right].
    change (p +:+ "." +:+ s) with (p +:+ String "." s) in Hp.
    destruct (sep_app_inv _ _ _ _ _ Hp Ha) as [[_ ->]|(r & _ & ->)].
    + by left.
    + right. by exists r.
  - intros [->|[->|[r ->]]]; [by left|right..].
    + by exists a.
    + exists (a +:+ "." +:+ r). by rewrite !sapp_assoc.
Qed.

Lemma genSplit_nonempty s c k : strings.genSplit s c k ≠ [].
Proof. destruct k; simpl; [done|]. by destruct (strings.cut s c) as [[??]|]. Qed.

Lemma Join_cons e l sep :
  l ≠ [] → strings.Join (e :: l) sep = e +:+ sep +:+ strings.Join l sep.
Proof. by destruct l. Qed.

Lemma Join_genSplit s c k :
  strings.Join (strings.genSplit s c k) (String c "") = s.
Proof.
  revert s. induction k as [|k IH]; intros s; simpl; [done|].
  destruct (strings.cut s c) as [[a b]|] eqn:Hcut; [|done].
  rewrite Join_cons by apply genSplit_nonempty. rewrite IH.
  by destruct (cut_Some _ _ _ _ Hcut) as [-> _].
Qed.

Lemma genSplit_length s c k :
  Z.of_nat k ≤ strings.Count s c → length (strings.genSplit s c k) = S k.
Proof.
  revert s. induction k as [|k IH]; intros s Hk; simpl; [done|].
  destruct (cut_is_Some s c) as [[a b] Hcut]; [lia|]. rewrite Hcut. simpl.
  destruct (cut_Some _ _ _ _ Hcut) as [-> Ha].
  rewrite Count_sep_app in Hk. rewrite IH; [done|lia].
Qed.

(** The joins of the tails of a split are the suffixes that keep all but
    at most [k] of the dots. *)
Lemma genSplit_tails h k s :
  Z.of_nat k ≤ strings.Count h "." →
  (∃ i, (i ≤ k)%nat ∧ s = strings.Join (drop i (strings.genSplit h "." k)) ".")
  ↔ dot_suffix s h ∧ strings.Count h "." - Z.of_nat k ≤ strings.Count s ".".
Proof.
  revert h. induction k as [|k IH]; intros h Hk.
  - simpl. split.
    + intros (i & Hi & ->). replace i with 0%nat by lia. simpl.
      split; [apply dot_suffix_refl|lia].
    + intros [Hs Hc]. exists 0%nat. split; [done|]. simpl.
      destruct (dot_suffix_Count _ _ Hs); [done|lia].
  - destruct (cut_is_Some h ".") as [[a b] Hcut]; [lia|].
    destruct (cut_Some _ _ _ _ Hcut) as [Hh Ha].
    assert (strings.Count h "." = 1 + strings.Count b ".") as Hc.
    { rewrite Hh at 1. rewrite Count_sep_app. lia. }
    rewrite (dot_suffix_cut _ _ _ _ Hcut).
    simpl strings.genSplit. rewrite Hcut.
    specialize (IH b ltac:(lia)). split.
    + intros (i & Hi & ->). destruct i as [|i].
      * simpl drop. rewrite Join_cons by apply genSplit_nonempty.
        rewrite (Join_genSplit b "." k).
        change (a +:+ "." +:+ b) with (a +:+ String "." b). rewrite <- Hh.
        split; [by left|lia].
      * simpl drop in *.
        destruct (proj1 IH) as [Hs Hcs]; [exists i; split; [lia|done]|].
        split; [by right|lia].
    + intros [[->|Hs] Hcs].
      * exists 0%nat. split; [lia|]. simpl drop.
        rewrite Join_cons by apply genSplit_nonempty.
        rewrite (Join_genSplit b "." k).
        change (a +:+ "." +:+ b) with (a +:+ String "." b). by rewrite <- Hh.
      * destruct (proj2 IH) as (i & Hi & ->); [split; [done|lia]|].
        exists (S i). split; [lia|done].
Qed.

Lemma labels_genSplit h :
  labels h = strings.genSplit h "." (Z.to_nat (strings.Count h ".")).
Proof.
  unfold labels, strings.SplitN. pose proof (Count_le_len h ".").
  cbv zeta. rewrite (decide_False (P := -1 = 0)) by lia.
  rewrite (decide_True (P := -1 < 0)) by lia.
  rewrite decide_False by lia. f_equal. lia.
Qed.

Lemma labels_cut h a b :
  strings.cut h "." = Some (a, b) → labels h = a :: labels b.
Proof.
  intros Hcut. rewrite !labels_genSplit.
  destruct (cut_Some _ _ _ _ Hcut) as [Hh Ha].
  pose proof (Count_nonneg b ".").
  replace (strings.Count h ".") with (1 + strings.Count b ".")
    by (rewrite Hh, Count_sep_app; lia).
  replace (Z.to_nat (1 + strings.Count b "."))
    with (S (Z.to_nat (strings.Count b "."))) by lia.
  simpl. by rewrite Hcut.
Qed.

End suffixes.

(** ** What [calculateRoute] computes *)

Lemma resolves_here h D d :
  1 ≤ strings.Count h "." → D !! h = Some d →
  resolves h D (Returns ([], d, None)).
Proof.
  intros Hc HD. exists h. repeat split; auto using dot_suffix_refl.
  intros s' Hs' _ _. by apply dot_suffix_length.
Qed.

Lemma calculateRoute_resolves_aux (n : nat) :
  ∀ h D, (String.length h < n)%nat →
    1 ≤ strings.Count h "." → Forall (λ l, l ≠ "") (labels h) →
    resolves h D (calculateRoute h D).
Proof.
  induction n as [|n IH]; intros h D Hn Hc Hl; [lia|].
  rewrite calculateRoute_unfold.
  destruct (splitHost_cases h)
    as [[? _]|[[Hc1 E]|[Hc2 (a & b & Hcut & E)]]]; [lia|..]; rewrite E.
  - destruct (D !! h) as [d|] eqn:HD; [by apply resolves_here|].
    rewrite decide_True by done. split; [by eexists|].
    intros s' Hs' Hc'. destruct (dot_suffix_Count _ _ Hs') as [->|?]; [done|lia].
  - destruct (D !! h) as [d|] eqn:HD; [by apply resolves_here|].
    rewrite (labels_cut _ _ _ Hcut) in Hl. apply Forall_cons in Hl as [Ha Hlb].
    rewrite decide_False by done.
    destruct (cut_Some _ _ _ _ Hcut) as [Hh Ha0].
    assert (strings.Count h "." = 1 + strings.Count b ".") as Hcb.
    { rewrite Hh at 1. rewrite Count_sep_app. lia. }
    assert (String.length b < String.length h)%nat as Hlen.
    { rewrite Hh, sapp_length. simpl. lia. }
    specialize (IH b D ltac:(lia) ltac:(lia) Hlb).
    destruct (calculateRoute b D) as [[[hosts d] [e|]]|];
      unfold resolves in IH |- *.
    + destruct IH as [He Hnone]. split; [done|].
      intros s' Hs' Hc'. apply (dot_suffix_cut _ _ _ _ Hcut) in Hs'.
      destruct Hs' as [->|Hs']; [done|by apply Hnone].
    + destruct IH as (s & HD' & Hs & Hcs & Hj & Hhosts & Hlong).
      exists s. split_and!; [done| |done| | |].
      * apply (dot_suffix_cut _ _ _ _ Hcut). by right.
      * rewrite <- app_comm_cons.
        rewrite Join_cons by (by destruct hosts). rewrite Hj.
        by rewrite Hh.
      * by constructor.
      * intros s' Hs' Hc' Hin. apply (dot_suffix_cut _ _ _ _ Hcut) in Hs'.
        destruct Hs' as [->|Hs']; [|by apply Hlong].
        rewrite HD in Hin. by destruct Hin.
    + done.
Qed.

(** C1, as amended.  For every hostname [h] with a dot and no empty
    label, and every mapping [D] of names to domains, [calculateRoute]
    returns the domain of [D] whose name is the longest dot-delimited
    suffix of [h] among the suffixes that have a dot themselves, with the
    labels of [h] to the left of that suffix; when no such suffix is a
    name in [D], it fails with a [DomainNotFoundError].  With
    [D = {example.com}], the hostname [www.foo.example.com] resolves to
    the labels [www; foo] and the domain example.com. *)
Theorem calculateRoute_longest_suffix :
  (∀ h D,
     1 ≤ strings.Count h "." → Forall (λ l, l ≠ "") (labels h) →
     resolves h D (calculateRoute h D))
  ∧ (∀ d, calculateRoute "www.foo.example.com" {[ "example.com" := d ]}
          = Returns (["www"; "foo"], d, None)).
Proof.
  split.
  - intros h D Hdots Hlabels.
    apply (calculateRoute_resolves_aux (S (String.length h))); [lia|done..].
  - intros d. by vm_compute.
Qed.

Lemma calculateRoute_longest_suffix_witness :
  1 ≤ strings.Count "www.foo.example.com" "."
  ∧ Forall (λ l, l ≠ "") (labels "www.foo.example.com")
  ∧ resolves "www.foo.example.com" {[ "example.com" := Demo.example_com ]}
      (calculateRoute "www.foo.example.com"
         {[ "example.com" := Demo.example_com ]}).
Proof.
  assert (1 ≤ strings.Count "www.foo.example.com" ".") as Hdots
    by (vm_compute; discriminate).
  assert (Forall (λ l, l ≠ "") (labels "www.foo.example.com")) as Hlabels
    by (apply (bool_decide_unpack _); vm_compute; exact I).
  split; [exact Hdots|]. split; [exact Hlabels|].
  exact (proj1 calculateRoute_longest_suffix _ _ Hdots Hlabels).
Defined.

(** C1 as stated fails.  "com" is a dot-delimited suffix of "foo.com" and
    a name in [D], and yet the resolution of "foo.com" fails with a
    [DomainNotFoundError]: a name without a dot is never tried.  Besides,
    a hostname without a dot panics even when it is a name in [D], and a
    hostname with an empty first label is not resolved although
    "example.com" is one of its suffixes. *)
Lemma calculateRoute_single_label_domain_not_found :
  calculateRoute "foo.com" {[ "com" := Demo.com ]}
  = Returns ([], Domain_zero, Some (DomainNotFoundError "foo.com"))
  ∧ ¬ resolves_any_suffix "foo.com" {[ "com" := Demo.com ]}
        (calculateRoute "foo.com" {[ "com" := Demo.com ]})
  ∧ ¬ resolves_any_suffix "localhost" {[ "localhost" := Demo.com ]}
        (calculateRoute "localhost" {[ "localhost" := Demo.com ]})
  ∧ ¬ resolves_any_suffix ".example.com"
        {[ "example.com" := Demo.example_com ]}
        (calculateRoute ".example.com"
           {[ "example.com" := Demo.example_com ]}).
Proof.
  assert (calculateRoute "foo.com" {[ "com" := Demo.com ]}
          = Returns ([], Domain_zero, Some (DomainNotFoundError "foo.com")))
    as E by by vm_compute.
  assert (calculateRoute "localhost" {[ "localhost" := Demo.com ]} = Panics)
    as E' by by vm_compute.
  assert (calculateRoute ".example.com"
            {[ "example.com" := Demo.example_com ]}
          = Returns ([], Domain_zero,
                     Some (DomainNotFoundError ".example.com")))
    as E'' by by vm_compute.
  split; [done|]. rewrite E, E', E''. split_and!.
  - intros [_ Hnone].
    assert (dot_suffix "com" "foo.com") as Hs by (right; by exists "foo").
    by specialize (Hnone "com" Hs).
  - by intros [].
  - intros [_ Hnone].
    assert (dot_suffix "example.com" ".example.com") as Hs
      by (right; by exists "").
    by specialize (Hnone "example.com" Hs).
Qed.

(** ** Candidate domains: [generatePossibleDomains] *)

Section possible_domains.

Implicit Types (h s route : string) (P : gset string).

Lemma elem_of_foldl_insert (f : nat → string) (l : list nat) P s :
  s ∈ foldl (λ acc i, {[ f i ]} ∪ acc) P l ↔ s ∈ P ∨ ∃ i, i ∈ l ∧ s = f i.
Proof.
  revert P. induction l as [|i l IH]; intros P; simpl.
  - split; [by left|]. intros [?|(i & Hi & _)]; [done|]. by inversion Hi.
  - rewrite IH. set_solver.
Qed.

Lemma SplitN_Count h :
  1 ≤ strings.Count h "." →
  strings.SplitN h "." (strings.Count h ".")
  = strings.genSplit h "." (Z.to_nat (strings.Count h "." - 1)).
Proof.
  intros Hc. unfold strings.SplitN. cbv zeta.
  pose proof (Count_le_len h ".").
  rewrite decide_False by lia.
  rewrite (decide_False (P := strings.Count h "." < 0)) by lia.
  by rewrite decide_False by lia.
Qed.

Lemma addPossibleDomains_spec P h s :
  s ∈ addPossibleDomains P h
  ↔ s ∈ P ∨ (dot_suffix s h ∧ 1 ≤ strings.Count s ".").
Proof.
  unfold addPossibleDomains. cbv zeta.
  rewrite (elem_of_foldl_insert
             (λ i, strings.Join (drop i (strings.SplitN h "."
                                           (strings.Count h "."))) ".")).
  pose proof (Count_nonneg h ".").
  destruct (decide (strings.Count h "." = 0)) as [H0|H0].
  - rewrite H0. simpl. split.
    + intros [?|(i & Hi & _)]; [by left|by inversion Hi].
    + intros [?|[Hs Hc]]; [by left|].
      destruct (dot_suffix_Count _ _ Hs) as [->|?]; lia.
  - rewrite SplitN_Count by lia.
    set (k := Z.to_nat (strings.Count h "." - 1)).
    rewrite genSplit_length by lia.
    pose proof (genSplit_tails h k s ltac:(lia)) as Ht.
    replace (strings.Count h "." - Z.of_nat k) with 1 in Ht by lia.
    rewrite <- Ht. split.
    + intros [?|(i & Hi & ->)]; [by left|right].
      apply elem_of_seq in Hi. exists i. split; [lia|done].
    + intros [?|(i & Hi & ->)]; [by left|right].
      exists i. split; [|done]. apply elem_of_seq. lia.
Qed.

Lemma foldl_addPossibleDomains_spec (hs : list string) P s :
  s ∈ foldl addPossibleDomains P hs
  ↔ s ∈ P ∨ ∃ h, h ∈ hs ∧ dot_suffix s h ∧ 1 ≤ strings.Count s ".".
Proof.
  revert P. induction hs as [|h hs IH]; intros P; simpl.
  - set_solver.
  - rewrite IH, addPossibleDomains_spec. set_solver.
Qed.

(** The first loop collects the hostname of every route, or stops at the
    first route that does not parse. *)
Lemma parseHostnames_ok actor routes acc hs :
  parseHostnames actor routes acc = (hs, None) →
  ∃ hosts, hs = acc ++ hosts
    ∧ Forall2 (λ route host, ∃ port path,
                 parseURL actor route = (host, port, path, None))
        routes hosts.
Proof.
  revert acc. induction routes as [|route routes IH]; intros acc; simpl.
  - intros [= <-]. exists []. by rewrite app_nil_r.
  - destruct (parseURL actor route) as [[[host port] path] [e|]] eqn:E;
      [done|].
    intros (hosts & -> & HF)%IH. exists (host :: hosts).
    rewrite <- app_assoc. split; [done|]. constructor; eauto.
Qed.

End possible_domains.

(** C2, as amended.  For every hostname, [generatePossibleDomains]
    produces every dot-delimited suffix of the hostname that has a dot of
    its own, from the full string down to its last two labels; the bare
    top-level label is not produced: "a.b.c" gives {"a.b.c", "b.c"},
    "www.foo.example.com" does not give "com", and a hostname without a
    dot gives the empty set. *)
Theorem generatePossibleDomains_suffixes :
  (∀ P h s,
     s ∈ addPossibleDomains P h
     ↔ s ∈ P ∨ (dot_suffix s h ∧ 1 ≤ strings.Count s "."))
  ∧ (∀ actor routes,
       match generatePossibleDomains actor routes with
       | (P, None) =>
           ∀ s, s ∈ P ↔
                ∃ route host port path,
                  route ∈ routes
                  ∧ parseURL actor route = (host, port, path, None)
                  ∧ dot_suffix s host ∧ 1 ≤ strings.Count s "."
       | (P, Some _) => P = ∅
       end)
  ∧ addPossibleDomains ∅ "a.b.c" = {[ "a.b.c"; "b.c" ]}
  ∧ ("com" ∉ addPossibleDomains ∅ "www.foo.example.com")
  ∧ (∀ h, strings.Count h "." = 0 → addPossibleDomains ∅ h = ∅).
Proof.
  split_and!.
  - apply addPossibleDomains_spec.
  - intros actor routes. unfold generatePossibleDomains.
    destruct (parseHostnames actor routes []) as [hs [e|]] eqn:E; [done|].
    apply parseHostnames_ok in E as (hosts & -> & HF). simpl.
    intros s. rewrite foldl_addPossibleDomains_spec. split.
    + intros [?|(h & Hh & Hs & Hc)]; [set_solver|].
      apply list_elem_of_lookup in Hh as [i Hi].
      destruct (Forall2_lookup_r _ _ _ _ _ HF Hi)
        as (route & Hroute & port & path & Hparse).
      exists route, h, port, path. split_and!; try done.
      by eapply list_elem_of_lookup_2.
    + intros (route & host & port & path & Hroute & Hparse & Hs & Hc).
      right. apply list_elem_of_lookup in Hroute as [i Hi].
      destruct (Forall2_lookup_l _ _ _ _ _ HF Hi)
        as (host' & Hhost & port' & path' & Hparse').
      assert (host' = host) as -> by congruence.
      exists host. split_and!; try done.
      by eapply list_elem_of_lookup_2.
  - apply (bool_decide_unpack _). by vm_compute.
  - apply (bool_decide_unpack _). by vm_compute.
  - intros h H0. apply set_eq. intros s.
    rewrite addPossibleDomains_spec. split; [|set_solver].
    intros [?|[Hs Hc]]; [done|].
    destruct (dot_suffix_Count _ _ Hs) as [->|?]; lia.
Qed.

(** C2 as stated fails: the top-level label is not among the candidates
    of "a.b.c", nor "com" among those of "www.foo.example.com". *)
Lemma generatePossibleDomains_no_top_level_label :
  generatePossibleDomains (Demo.actor [] "") ["a.b.c"]
  = ({[ "a.b.c"; "b.c" ]}, None)
  ∧ (generatePossibleDomains (Demo.actor [] "") ["a.b.c"]).1
    ≠ {[ "a.b.c"; "b.c"; "c" ]}
  ∧ ("com" ∉ (generatePossibleDomains (Demo.actor [] "")
                ["www.foo.example.com"]).1).
Proof.
  split_and!.
  - apply (bool_decide_unpack _). by vm_compute.
  - apply (bool_decide_unpack _). by vm_compute.
  - apply (bool_decide_unpack _). by vm_compute.
Qed.

(** ** Hostname sanitizer *)

Section sanitizer.

Local Arguments Z.eqb : simpl never.
Local Arguments Z.leb : simpl never.

Local Ltac runes :=
  unfold sanitize_char, letter_or_digit, between, unicode.ToLower in *;
  change (rune_of "a") with 97 in *; change (rune_of "z") with 122 in *;
  change (rune_of "A") with 65 in *; change (rune_of "Z") with 90 in *;
  change (rune_of "0") with 48 in *; change (rune_of "9") with 57 in *;
  change (rune_of " ") with 32 in *; change (rune_of "-") with 45 in *.

Lemma sanitize_char_valid r :
  length (filter (λ x, Is_true (letter_or_digit x)) (sanitize_char r))
  = (if letter_or_digit r then 1 else 0)%nat.
Proof.
  runes.
  repeat match goal with
         | |- context [?a <=? ?b] => destruct (Z.leb_spec a b)
         | |- context [?a =? ?b] => destruct (Z.eqb_spec a b)
         end; simpl; try lia; try done;
  rewrite ?filter_cons, ?filter_nil; runes;
  repeat match goal with
         | |- context [?a <=? ?b] => destruct (Z.leb_spec a b)
         end; simpl; try lia; try done.
Qed.

(** The loop appends what each character emits and counts the letters
    and digits among the characters read. *)
Lemma sanitize_loop_spec rs acc n :
  sanitize_loop rs acc n
  = (acc ++ flat_map sanitize_char rs,
     n + Z.of_nat (length (filter (λ x, Is_true (letter_or_digit x)) rs))).
Proof.
  revert acc n. induction rs as [|r rs IH]; intros acc n.
  - simpl. rewrite app_nil_r. f_equal. lia.
  - simpl sanitize_loop. rewrite filter_cons. simpl flat_map.
    assert (∀ (b : bool) (l : list rune) (x : rune),
              length (if decide (Is_true b) then x :: l else l)
              = ((if b then 1 else 0) + length l)%nat) as Hlen
      by (by intros [] ??).
    rewrite Hlen. clear Hlen.
    runes.
    repeat match goal with
           | |- context [?a <=? ?b] => destruct (Z.leb_spec a b)
           | |- context [?a =? ?b] => destruct (Z.eqb_spec a b)
           end; simpl; rewrite IH, <- ?app_assoc; simpl;
      f_equal; try lia; repeat f_equal; lia.
Qed.

Lemma valid_count_emitted rs :
  length (filter (λ x, Is_true (letter_or_digit x)) (flat_map sanitize_char rs))
  = length (filter (λ x, Is_true (letter_or_digit x)) rs).
Proof.
  induction rs as [|r rs IH]; [done|]. simpl flat_map.
  rewrite filter_app, length_app, sanitize_char_valid, IH, filter_cons.
  by destruct (letter_or_digit r).
Qed.

Lemma existsb_filter_length (f : rune → bool) l :
  existsb f l = (Z.of_nat (length (filter (λ x, Is_true (f x)) l)) >? 0).
Proof.
  induction l as [|x l IH]; [done|]. simpl. rewrite filter_cons, IH.
  destruct (f x); simpl; [|done].
  symmetry. apply Z.gtb_gt. lia.
Qed.

Lemma sanitize_refines name : sanitize name = sanitize_spec name.
Proof.
  unfold sanitize, sanitize_spec. rewrite sanitize_loop_spec. cbv zeta.
  rewrite existsb_filter_length, valid_count_emitted. simpl. done.
Qed.

Lemma sanitize_char_range r x :
  x ∈ sanitize_char r → (97 ≤ x ∧ x ≤ 122) ∨ (48 ≤ x ∧ x ≤ 57) ∨ x = 45.
Proof.
  runes.
  repeat match goal with
         | |- context [?a <=? ?b] => destruct (Z.leb_spec a b)
         | |- context [?a =? ?b] => destruct (Z.eqb_spec a b)
         end; simpl; intros Hx;
    repeat (apply elem_of_cons in Hx as [->|Hx]); try (by inversion Hx); lia.
Qed.

Lemma string_of_runes_host rs :
  Forall (λ x, (97 ≤ x ∧ x ≤ 122) ∨ (48 ≤ x ∧ x ≤ 57) ∨ x = 45) rs →
  all_bytes host_byte (utf8.string_of_runes rs).
Proof.
  induction 1 as [|x rs Hx _ IH]; [done|]. simpl.
  assert (utf8.EncodeRune x = String (utf8.byte_of x) "") as ->.
  { unfold utf8.EncodeRune, utf8.RuneError.
    repeat match goal with
           | |- context [?a <=? ?b] => destruct (Z.leb_spec a b)
           | |- context [?a <? ?b] => destruct (Z.ltb_spec a b)
           end; simpl in *; try done; lia. }
  rewrite sapp_cons, sapp_nil. split; [|done].
  unfold host_byte, utf8.byte_val, utf8.byte_of.
  rewrite N_ascii_embedding by lia. rewrite Z2N.id by lia. done.
Qed.

Lemma TrimLeft_spec s c P :
  all_bytes P s →
  all_bytes P (TrimLeft s c) ∧ first_byte (TrimLeft s c) ≠ Some c.
Proof.
  induction s as [|a s IH]; simpl; [done|]. intros [Ha Hs].
  case_decide; [by apply IH|]. simpl. split; [done|congruence].
Qed.

Lemma TrimRight_spec s c P :
  all_bytes P s → first_byte s ≠ Some c →
  all_bytes P (TrimRight s c)
  ∧ first_byte (TrimRight s c) ≠ Some c
  ∧ last_byte (TrimRight s c) ≠ Some c.
Proof.
  intros Hall Hfirst.
  assert (all_bytes P (TrimRight s c) ∧ last_byte (TrimRight s c) ≠ Some c)
    as [Hall' Hlast].
  { clear Hfirst. induction s as [|a s IH]; simpl; [done|].
    destruct Hall as [Ha Hs]. destruct (IH Hs) as [IH1 IH2].
    destruct (TrimRight s c) as [|b t].
    - case_decide; simpl; [done|]. split; [done|congruence].
    - split; [done|]. done. }
  split_and!; try done.
  destruct s as [|a s]; simpl in *; [done|].
  destruct (TrimRight s c); [case_decide|]; simpl; congruence.
Qed.

(** A sanitized name is made of lowercase letters, digits and hyphens,
    and neither starts nor ends with a hyphen. *)
Lemma sanitize_host_safe name :
  all_bytes host_byte (sanitize name)
  ∧ first_byte (sanitize name) ≠ Some "-"%char
  ∧ last_byte (sanitize name) ≠ Some "-"%char.
Proof.
  rewrite sanitize_refines. unfold sanitize_spec. cbv zeta.
  destruct (existsb _ _); [|done]. unfold Trim.
  set (emitted := flat_map _ _).
  assert (all_bytes host_byte (utf8.string_of_runes emitted)) as Hall.
  { apply string_of_runes_host, Forall_forall. intros x Hx.
    apply list_elem_of_In, in_flat_map in Hx as (r & _ & Hx).
    by eapply sanitize_char_range, list_elem_of_In. }
  destruct (TrimLeft_spec _ "-" _ Hall) as [Hall' Hfirst].
  by apply TrimRight_spec.
Qed.

End sanitizer.

(** C9.  [sanitize] trims surrounding white space, maps the characters
    left to right (lowercase letters and digits kept, uppercase letters
    lowercased, space and hyphen to a hyphen, the rest dropped), returns
    the empty string when no letter or digit survives, and otherwise the
    accumulated string without its leading and trailing hyphens. *)
Theorem sanitize_contract :
  (∀ name, sanitize name = sanitize_spec name)
  ∧ (∀ name, all_bytes host_byte (sanitize name)
             ∧ first_byte (sanitize name) ≠ Some "-"%char
             ∧ last_byte (sanitize name) ≠ Some "-"%char)
  ∧ sanitize " My App! " = "my-app"
  ∧ sanitize "---" = ""
  ∧ sanitize "A_B" = "ab".
Proof.
  split; [apply sanitize_refines|]. split; [apply sanitize_host_safe|].
  by vm_compute.
Qed.

(** ** Default-route selection *)

(** C8.  The hostname of the default route is selected by ordered cases,
    the first that matches winning: a manifest hostname with a TCP domain
    is an error; no-hostname with a shared HTTP domain is an error;
    no-hostname alone gives the empty hostname; an HTTP domain gives the
    sanitized hostname (the manifest hostname if given, else the
    application name); otherwise the hostname is empty.  A manifest path
    with a TCP domain is an error; otherwise the path is the manifest path
    as it is. *)
Theorem default_route_hostname_and_path (manifestApp : ManifestApplication)
    (domain : Domain) :
  let explicit := manifest_Hostname manifestApp in
  let noHostname := manifest_NoHostname manifestApp in
  let path := manifest_RoutePath manifestApp in
  let case1 := explicit ≠ "" ∧ IsTCP domain = true in
  let case2 := noHostname = true ∧ IsShared domain = true
               ∧ IsHTTP domain = true in
  (case1 →
   calculateHostname manifestApp domain
   = ("", Some HostnameWithTCPDomainError))
  ∧ (¬ case1 → case2 →
     calculateHostname manifestApp domain
     = ("", Some NoHostnameAndSharedDomainError))
  ∧ (¬ case1 → ¬ case2 → noHostname = true →
     calculateHostname manifestApp domain = ("", None))
  ∧ (¬ case1 → noHostname = false → IsHTTP domain = true →
     calculateHostname manifestApp domain
     = (sanitize (if decide (explicit = "")
                  then manifest_Name manifestApp else explicit), None))
  ∧ (¬ case1 → noHostname = false → IsHTTP domain = false →
     IsTCP domain = true
     ∧ calculateHostname manifestApp domain = ("", None))
  ∧ (path ≠ "" → IsTCP domain = true →
     calculatePath manifestApp domain
     = ("", Some RoutePathWithTCPDomainError))
  ∧ (¬ (path ≠ "" ∧ IsTCP domain = true) →
     calculatePath manifestApp domain = (path, None)).
Proof.
  destruct manifestApp as [name dom explicit noHostname path].
  destruct domain as [guid dname [] []]; destruct noHostname;
    unfold calculateHostname, calculatePath, IsTCP, IsHTTP, IsShared;
    simpl; repeat split; intros;
    repeat case_bool_decide; simpl; try done; naive_solver.
Qed.

Lemma default_route_hostname_and_path_witness :
  calculateHostname
    (mkManifestApplication "My App" "" "" false "/x") Demo.example_com
  = ("my-app", None)
  ∧ calculatePath
      (mkManifestApplication "My App" "" "" false "/x") Demo.example_com
    = ("/x", None).
Proof.
  pose proof (default_route_hostname_and_path
                (mkManifestApplication "My App" "" "" false "/x")
                Demo.example_com) as (_ & _ & _ & Hhost & _ & _ & Hpath).
  split.
  - rewrite Hhost; [by vm_compute|by intros [? _]|reflexivity|reflexivity].
  - apply Hpath. intros [_ ?]. discriminate.
Defined.

(** ** Route reconciler *)

Lemma bind_run {A B} (m : M A) (f : A → M B) (tr : Trace) :
  (m ≫= f) tr
  = match m tr with Returns (a, tr') => f a tr' | Panics => Panics end.
Proof. reflexivity. Qed.

Lemma ret_run {A} (a : A) (tr : Trace) :
  (mret a : M A) tr = Returns (a, tr).
Proof. reflexivity. Qed.

Lemma routeInListByGUID_spec route routes :
  routeInListByGUID route routes = true
  ↔ ∃ r, r ∈ routes ∧ route_GUID r = route_GUID route.
Proof.
  induction routes as [|r routes IH]; simpl.
  - split; [done|]. intros (r & Hr & _). by inversion Hr.
  - case_decide as Hg.
    + split; [|done]. intros _. exists r. split; [left|done].
    + rewrite IH. split.
      * intros (r' & Hr' & Hg'). exists r'. split; [by right|done].
      * intros (r' & Hr' & Hg'). apply elem_of_cons in Hr' as [->|Hr'];
          [done|by exists r'].
  Qed.

(** *** Mapping *)

Lemma mapRouteToApp_run actor route appGUID tr :
  ∃ ws err,
    V2Actor_MapRouteToApplication actor tr (route_GUID route) appGUID
    = (ws, err)
    ∧ mapRouteToApp actor route appGUID tr
      = Returns ((ws, mapError actor route <$> err),
                 tr ++ [EvMapRouteToApplication (route_GUID route) appGUID
                          ws err]).
Proof.
  unfold mapRouteToApp. rewrite bind_run.
  unfold V2Actor.MapRouteToApplication.
  destruct (V2Actor_MapRouteToApplication actor tr (route_GUID route) appGUID)
    as [ws err].
  exists ws, err. split; [done|]. by destruct err as [[]|].
Qed.

Lemma MapRoutes_loop_spec actor config routes boundBefore ws0 tr :
  ∃ res evs,
    MapRoutes_loop actor config routes boundBefore ws0 tr
    = Returns (res, tr ++ evs)
    ∧ res.1.2 = ws0 ++ flat_map ev_warnings evs
    ∧ map_result actor config (unbound config routes) boundBefore res evs.
Proof.
  revert boundBefore ws0 tr.
  induction routes as [|route rest IH]; intros boundBefore ws0 tr.
  - eexists (_, _, _, _), []. simpl. rewrite ret_run, !app_nil_r.
    split; [reflexivity|]. split_and!; try done; try constructor.
    by rewrite orb_false_r.
  - simpl MapRoutes_loop. unfold unbound. rewrite filter_cons.
    destruct (routeInListByGUID route (CurrentRoutes config)) eqn:Hin;
      cbn [negb].
    + rewrite decide_False by done. apply IH.
    + rewrite decide_True by done. cbv iota. rewrite bind_run.
      destruct (mapRouteToApp_run actor route
                  (app_GUID (DesiredApplication config)) tr)
        as (ws & err & Horacle & ->).
      set (ev := EvMapRouteToApplication _ _ ws err).
      destruct err as [e'|]; cbn [fmap option_fmap option_map].
      * eexists (_, _, _, _), [ev]. rewrite ret_run. simpl.
        rewrite app_nil_r. split_and!; try done.
        { constructor; [by eexists _, _|constructor]. }
        cbv iota. split_and!; try done.
        exists [], ev, route, e'. by split_and!.
      * destruct (IH true (ws0 ++ ws) (tr ++ [ev]))
          as ([[[config' bound] warnings] err] & evs & -> & Hws & HF & Hres).
        eexists (_, _, _, _), (ev :: evs). rewrite <- app_assoc. simpl in *.
        split_and!; [done|by rewrite Hws, <- app_assoc| |].
        { constructor; [by eexists _, _|done]. }
        destruct err as [e|].
        -- destruct Hres as (-> & -> & evs0 & ev' & r & e' & -> & ? & ? & ? & ->).
           split_and!; try done.
           exists (ev :: evs0), ev', r, e'. split_and!; try done.
           by constructor.
        -- destruct Hres as (-> & ? & ? & ->). split_and!; try done.
           ++ by constructor.
           ++ by f_equal.
           ++ by rewrite orb_true_r.
Qed.

(** C4.  [MapRoutes] binds the desired routes that have no entry of the
    same GUID among the current routes, in order.  On the first failed
    bind call it stops: it returns the zero configuration, [false], the
    warnings of the calls made so far and the error of that call.  When
    no call fails it returns the configuration with its current routes
    replaced by the desired routes, and a flag that tells whether a bind
    call was made. *)
Theorem MapRoutes_contract :
  (∀ actor config tr,
     ∃ config' bound warnings err evs,
       MapRoutes actor config tr
       = Returns ((config', bound, warnings, err), tr ++ evs)
       ∧ warnings = flat_map ev_warnings evs
       ∧ Forall2 (is_map_call (app_GUID (DesiredApplication config)))
           (take (length evs) (unbound config (DesiredRoutes config))) evs
       ∧ match err with
         | Some e =>
             config' = ApplicationConfig_zero ∧ bound = false
             ∧ ∃ evs0 ev r e',
                 evs = evs0 ++ [ev] ∧ Forall ev_ok evs0
                 ∧ ev_err ev = Some e'
                 ∧ unbound config (DesiredRoutes config) !! length evs0
                   = Some r
                 ∧ e = mapError actor r e'
         | None =>
             config' = set_CurrentRoutes (DesiredRoutes config) config
             ∧ CurrentRoutes config' = DesiredRoutes config
             ∧ Forall ev_ok evs
             ∧ length evs = length (unbound config (DesiredRoutes config))
             ∧ (bound = true ↔ evs ≠ [])
         end)
  ∧ (let config :=
       mkApplicationConfig (mkApplication "app" "my-app")
         [Demo.route "r1" "a"]
         [Demo.route "r1" "a"; Demo.route "r2" "b"; Demo.route "r3" "c";
          Demo.route "r4" "d"] in
     MapRoutes (Demo.actor [] "r3") config []
     = Returns ((ApplicationConfig_zero, false,
                 ["warning r2"; "warning r3"], Some (OtherError "failed")),
                [EvMapRouteToApplication "r2" "app" ["warning r2"] None;
                 EvMapRouteToApplication "r3" "app" ["warning r3"]
                   (Some (OtherError "failed"))])
     ∧ MapRoutes (Demo.actor [] "") config []
       = Returns ((set_CurrentRoutes (DesiredRoutes config) config, true,
                   ["warning r2"; "warning r3"; "warning r4"], None),
                  [EvMapRouteToApplication "r2" "app" ["warning r2"] None;
                   EvMapRouteToApplication "r3" "app" ["warning r3"] None;
                   EvMapRouteToApplication "r4" "app" ["warning r4"] None])).
Proof.
  split; [|by vm_compute].
  intros actor config tr.
  destruct (MapRoutes_loop_spec actor config (DesiredRoutes config) false [] tr)
    as ([[[config' bound] warnings] err] & evs & Hrun & Hws & HF & Hres).
  exists config', bound, warnings, err, evs. simpl in *.
  split_and!; try done. destruct err as [e|]; [done|].
  destruct Hres as (-> & ? & ? & ->). split_and!; try done.
  simpl. by rewrite bool_decide_eq_true.
Qed.

Lemma MapRoutes_loop_all_bound actor config routes boundBefore ws0 tr :
  Forall (λ r, routeInListByGUID r (CurrentRoutes config) = true) routes →
  MapRoutes_loop actor config routes boundBefore ws0 tr
  = Returns ((set_CurrentRoutes (DesiredRoutes config) config,
              boundBefore, ws0, None), tr).
Proof.
  induction 1 as [|route rest Hin _ IH]; [done|].
  simpl. by rewrite Hin.
Qed.

(** C7.  When every desired route has an entry of the same GUID among the
    current routes, [MapRoutes] makes no call through the client (the
    trace of calls is unchanged) and reports [false], the first time and
    again on its own result.  Membership is by GUID alone: the other
    fields of a route play no part. *)
Theorem MapRoutes_idempotent :
  (∀ actor config tr,
     (∀ r, r ∈ DesiredRoutes config →
        ∃ r', r' ∈ CurrentRoutes config ∧ route_GUID r' = route_GUID r) →
     let config' := set_CurrentRoutes (DesiredRoutes config) config in
     MapRoutes actor config tr = Returns ((config', false, [], None), tr)
     ∧ MapRoutes actor config' tr = Returns ((config', false, [], None), tr))
  ∧ (∀ route routes,
       routeInListByGUID route routes = true
       ↔ ∃ r, r ∈ routes ∧ route_GUID r = route_GUID route).
Proof.
  split; [|apply routeInListByGUID_spec].
  intros actor config tr Hall config'. split.
  - apply MapRoutes_loop_all_bound, Forall_forall.
    intros r Hr. by apply routeInListByGUID_spec, Hall.
  - unfold MapRoutes. rewrite MapRoutes_loop_all_bound; [done|].
    apply Forall_forall. intros r Hr. apply routeInListByGUID_spec.
    by exists r.
Qed.

Lemma MapRoutes_idempotent_witness :
  let config :=
    mkApplicationConfig (mkApplication "app" "my-app")
      [Demo.route "r1" "www"; Demo.route "r2" "api"]
      [Demo.route "r2" "other"] in
  MapRoutes (Demo.actor [] "r2") config []
  = Returns ((set_CurrentRoutes (DesiredRoutes config) config,
              false, [], None), []).
Proof.
  intros config.
  refine (proj1 (proj1 MapRoutes_idempotent (Demo.actor [] "r2") config [] _)).
  intros r Hr. apply list_elem_of_singleton in Hr as ->.
  exists (Demo.route "r2" "api"). split; [|reflexivity].
  right. left.
Defined.

(** *** Unmapping *)

Lemma UnmapRoutes_loop_spec actor config appGUID routes ws0 tr :
  ∃ config' warnings err evs,
    UnmapRoutes_loop actor config appGUID routes ws0 tr
    = Returns ((config', warnings, err), tr ++ evs)
    ∧ warnings = ws0 ++ flat_map ev_warnings evs
    ∧ Forall2 (is_unmap_call appGUID) (take (length evs) routes) evs
    ∧ match err with
      | Some e =>
          config' = config
          ∧ ∃ evs0 ev, evs = evs0 ++ [ev] ∧ Forall ev_ok evs0
                       ∧ ev_err ev = Some e
      | None =>
          config' = set_CurrentRoutes [] config
          ∧ Forall ev_ok evs ∧ length evs = length routes
      end.
Proof.
  revert ws0 tr. induction routes as [|route rest IH]; intros ws0 tr.
  - exists (set_CurrentRoutes [] config), ws0, None, []. simpl.
    rewrite ret_run, !app_nil_r. split_and!; try done; constructor.
  - simpl UnmapRoutes_loop. rewrite bind_run.
    unfold V2Actor.UnmapRouteFromApplication.
    destruct (V2Actor_UnmapRouteFromApplication actor tr (route_GUID route)
                appGUID) as [ws err].
    set (ev := EvUnmapRouteFromApplication _ _ ws err).
    destruct err as [e|].
    + exists config, (ws0 ++ ws), (Some e), [ev]. rewrite ret_run. simpl.
      rewrite app_nil_r. split_and!; try done.
      * constructor; [by eexists _, _|constructor].
      * exists [], ev. by split_and!.
    + destruct (IH (ws0 ++ ws) (tr ++ [ev]))
        as (config' & warnings & err & evs & -> & -> & HF & Hres).
      exists config', (ws0 ++ ws ++ flat_map ev_warnings evs), err, (ev :: evs).
      rewrite <- !app_assoc. simpl. split_and!; try done.
      * constructor; [by eexists _, _|done].
      * destruct err as [e|].
        -- destruct Hres as (-> & evs0 & ev' & -> & ? & ?).
           split; [done|]. exists (ev :: evs0), ev'.
           split_and!; try done. by constructor.
        -- destruct Hres as (-> & ? & ?). split_and!; try done.
           ++ by constructor.
           ++ by f_equal.
Qed.


(** *** Creation *)

Lemma CreateRoutes_loop_spec actor config desired routes createdBefore ws0 tr :
  ∃ config' created warnings err evs,
    CreateRoutes_loop actor config desired routes createdBefore ws0 tr
    = Returns ((config', created, warnings, err), tr ++ evs)
    ∧ warnings = ws0 ++ flat_map ev_warnings evs
    ∧ Forall2 is_create_call (take (length evs) (to_create desired)) evs
    ∧ match err with
      | Some e =>
          config' = ApplicationConfig_zero ∧ created = true
          ∧ ∃ evs0 ev, evs = evs0 ++ [ev] ∧ Forall ev_ok evs0
                       ∧ ev_err ev = Some e
      | None =>
          config'
          = set_DesiredRoutes (routes ++ with_created desired evs) config
          ∧ Forall ev_ok evs ∧ length evs = length (to_create desired)
          ∧ created = createdBefore || bool_decide (evs ≠ [])
      end.
Proof.
  revert routes createdBefore ws0 tr.
  induction desired as [|route rest IH]; intros routes createdBefore ws0 tr.
  - exists (set_DesiredRoutes routes config), createdBefore, ws0, None, [].
    simpl. rewrite ret_run, !app_nil_r.
    split_and!; try done; try constructor. by rewrite orb_false_r.
  - simpl CreateRoutes_loop. unfold to_create. rewrite filter_cons.
    simpl with_created. case_decide as Hguid.
    + rewrite bind_run. unfold V2Actor.CreateRoute.
      destruct (V2Actor_CreateRoute actor tr route (RandomTCPPort route))
        as [[createdRoute ws] err].
      set (ev := EvCreateRoute _ _ createdRoute ws err).
      destruct err as [e|].
      * exists ApplicationConfig_zero, true, (ws0 ++ ws), (Some e), [ev].
        rewrite ret_run. simpl. rewrite app_nil_r. split_and!; try done.
        -- constructor; [by eexists _, _, _|constructor].
        -- exists [], ev. by split_and!.
      * destruct (IH (routes ++ [createdRoute]) true (ws0 ++ ws) (tr ++ [ev]))
          as (config' & created & warnings & err & evs & -> & -> & HF & Hres).
        exists config', created, (ws0 ++ ws ++ flat_map ev_warnings evs),
          err, (ev :: evs).
        rewrite <- !app_assoc. simpl. split_and!; try done.
        -- constructor; [by eexists _, _, _|done].
        -- destruct err as [e|].
           ++ destruct Hres as (-> & -> & evs0 & ev' & -> & ? & ?).
              split_and!; try done. exists (ev :: evs0), ev'.
              split_and!; try done. by constructor.
           ++ destruct Hres as (-> & ? & ? & ->).
              rewrite <- app_assoc. split_and!; try done.
              ** by constructor.
              ** by f_equal.
              ** by rewrite orb_true_r.
    + destruct (IH (routes ++ [route]) createdBefore ws0 tr)
        as (config' & created & warnings & err & evs & -> & -> & HF & Hres).
      exists config', created, (ws0 ++ flat_map ev_warnings evs), err, evs.
      split_and!; try done.
      destruct err as [e|]; [done|].
      destruct Hres as (-> & ? & ? & ->). rewrite <- app_assoc.
      by split_and!.
Qed.

Lemma with_created_unchanged desired evs :
  Forall2 is_create_call (to_create desired) evs →
  length (with_created desired evs) = length desired
  ∧ ∀ i r, desired !! i = Some r → route_GUID r ≠ "" →
           with_created desired evs !! i = Some r.
Proof.
  revert evs. induction desired as [|r rest IH]; intros evs HF; [done|].
  unfold to_create in HF. rewrite filter_cons in HF. simpl.
  case_decide as Hguid.
  - inversion HF as [|? ev ? evs' (created & ws & err & ->) HF']; subst.
    destruct (IH evs' HF') as [Hlen Hsame]. split; [simpl; by f_equal|].
    intros [|i] r'; simpl; [by intros [= <-]|by apply Hsame].
  - destruct (IH evs HF) as [Hlen Hsame]. split; [simpl; by f_equal|].
    intros [|i] r'; simpl; [done|by apply Hsame].
Qed.

(** C6.  [CreateRoutes] makes a create call for exactly the desired
    routes with an empty GUID, in order, asking for a random port when the
    route has no port and its domain is TCP; the desired routes of the
    configuration it returns are those it was given, each route with an
    empty GUID replaced by the route the client returned for it and the
    routes with a GUID left as they are, the application and the current
    routes being untouched, and the flag tells whether a call was made.
    On the first failed call it stops and returns the zero configuration,
    [true], the warnings of the calls made and the error. *)
Theorem CreateRoutes_contract :
  (∀ actor config tr,
     ∃ config' created warnings err evs,
       CreateRoutes actor config tr
       = Returns ((config', created, warnings, err), tr ++ evs)
       ∧ warnings = flat_map ev_warnings evs
       ∧ Forall2 is_create_call
           (take (length evs) (to_create (DesiredRoutes config))) evs
       ∧ match err with
         | Some e =>
             config' = ApplicationConfig_zero ∧ created = true
             ∧ ∃ evs0 ev, evs = evs0 ++ [ev] ∧ Forall ev_ok evs0
                          ∧ ev_err ev = Some e
         | None =>
             DesiredRoutes config' = with_created (DesiredRoutes config) evs
             ∧ DesiredApplication config' = DesiredApplication config
             ∧ CurrentRoutes config' = CurrentRoutes config
             ∧ (created = true ↔ evs ≠ [])
             ∧ Forall ev_ok evs
             ∧ length evs = length (to_create (DesiredRoutes config))
             ∧ length (DesiredRoutes config') = length (DesiredRoutes config)
             ∧ (∀ i r, DesiredRoutes config !! i = Some r →
                       route_GUID r ≠ "" →
                       DesiredRoutes config' !! i = Some r)
         end)
  ∧ (let config :=
       mkApplicationConfig (mkApplication "app" "my-app") []
         [Demo.route "" "www"; Demo.route "r2" "api"] in
     CreateRoutes (Demo.actor [] "") config []
     = Returns ((mkApplicationConfig (mkApplication "app" "my-app") []
                   [Demo.route "guid-www" "www"; Demo.route "r2" "api"],
                 true, ["warning www"], None),
                [EvCreateRoute (Demo.route "" "www") false
                   (Demo.route "guid-www" "www") ["warning www"] None])
     ∧ CreateRoutes (Demo.actor [] "www") config []
       = Returns ((ApplicationConfig_zero, true, ["warning www"],
                   Some (OtherError "failed")),
                  [EvCreateRoute (Demo.route "" "www") false
                     (Demo.route "guid-www" "www") ["warning www"]
                     (Some (OtherError "failed"))])).
Proof.
  split; [|by vm_compute].
  intros actor config tr.
  destruct (CreateRoutes_loop_spec actor config (DesiredRoutes config)
              [] false [] tr)
    as (config' & created & warnings & err & evs & Hrun & Hws & HF & Hres).
  exists config', created, warnings, err, evs. split_and!; try done.
  destruct err as [e|]; [done|].
  destruct Hres as (-> & Hok & Hlen & ->). simpl.
  rewrite Hlen, firstn_all in HF.
  destruct (with_created_unchanged _ _ HF) as [Hlen' Hsame].
  split_and!; try done.
  rewrite bool_decide_eq_true. done.
Qed.

(** ** Route calculator *)

Section calculator.

Context (actor : Actor).

Lemma calculateRoute_Panics h D :
  calculateRoute h D = Panics → strings.Count h "." = 0.
Proof.
  remember (S (String.length h)) as n eqn:Hn.
  assert (String.length h < n)%nat as Hlt by lia. clear Hn.
  revert h Hlt. induction n as [|n IH]; intros h Hlt; [lia|].
  rewrite calculateRoute_unfold.
  destruct (splitHost_cases h)
    as [[H0 _]|[[_ E]|[_ (a & b & Hcut & E)]]]; [done|..]; rewrite E.
  - destruct (D !! h); [done|]. by rewrite decide_True.
  - destruct (D !! h); [done|]. case_decide; [done|].
    destruct (cut_Some _ _ _ _ Hcut) as [Hh Ha].
    assert (String.length b < n)%nat as Hb.
    { rewrite Hh, sapp_length in Hlt. simpl in Hlt. lia. }
    specialize (IH b Hb).
    destruct (calculateRoute b D) as [[[hosts d] err]|]; [done|].
    intros _. specialize (IH eq_refl).
    assert (2 ≤ strings.Count h ".") as H2.
    { destruct (splitHost_cases h) as [[? E']|[[? E']|[? _]]];
        [rewrite E in E'; done|rewrite E in E'|done].
      injection E' as -> _. done. }
    rewrite Hh, Count_sep_app in H2. pose proof (Count_nonneg a ".").
    lia.
Qed.

Lemma foldl_snoc {A} (l acc : list A) :
  foldl (λ acc x, acc ++ [x]) acc l = acc ++ l.
Proof.
  revert acc. induction l as [|x l IH]; intros acc; simpl.
  - by rewrite app_nil_r.
  - by rewrite IH, <- app_assoc.
Qed.

Lemma routeInListByName_spec raw routes :
  (routeInListByName actor raw routes).2 = true
  ↔ ∃ r, r ∈ routes
         ∧ Route_String actor r = startWithProtocol_strip actor raw.
Proof.
  unfold routeInListByName.
  induction routes as [|r routes IH]; simpl.
  - split; [done|]. intros (r & Hr & _). by inversion Hr.
  - case_decide as Hs; simpl.
    + split; [|done]. intros _. exists r. split; [left|done].
    + rewrite IH. split.
      * intros (r' & Hr' & ?). exists r'. split; [by right|done].
      * intros (r' & Hr' & ?). apply elem_of_cons in Hr' as [->|Hr'];
          [done|by exists r'].
Qed.

Lemma unknown_loop routes existingRoutes (acc : list string) :
  foldl (λ unknownRoutes route,
           let '(_, found) := routeInListByName actor route existingRoutes in
           if negb found then unknownRoutes ++ [route] else unknownRoutes)
    acc routes
  = acc ++ unknown_routes actor routes existingRoutes.
Proof.
  unfold unknown_routes. revert acc.
  induction routes as [|raw routes IH]; intros acc; simpl.
  - by rewrite app_nil_r.
  - rewrite IH, filter_cons.
    destruct (routeInListByName actor raw existingRoutes) as [r []]; simpl.
    + done.
    + by rewrite <- app_assoc.
Qed.

Lemma splitExistingRoutes_spec routes existingRoutes :
  splitExistingRoutes actor routes existingRoutes
  = (existingRoutes, unknown_routes actor routes existingRoutes).
Proof.
  unfold splitExistingRoutes. by rewrite foldl_snoc, unknown_loop.
Qed.

Lemma resolved_from_mono spaceGUID D evs evs' raw r :
  evs ⊆ evs' →
  resolved_from actor spaceGUID D evs raw r → resolved_from actor spaceGUID D evs' raw r.
Proof.
  intros Hsub (root & port & path & hostLabels & domain & ? & ? & ?
               & found & ws & err & Hin & ?).
  exists root, port, path, hostLabels, domain.
  split; [done|]. split; [done|]. cbv zeta. split; [done|].
  exists found, ws, err. split; [by apply Hsub|done].
Qed.

Lemma findOrReturnPartialRouteWithSettings_run route tr :
  ∃ found ws err r' err',
    findOrReturnPartialRouteWithSettings actor route tr
    = Returns ((r', ws, err'),
               tr ++ [EvFindRouteBoundToSpaceWithSettings route found ws err])
    ∧ ((err = Some RouteNotFoundError ∧ r' = route ∧ err' = None)
       ∨ (err ≠ Some RouteNotFoundError ∧ r' = found ∧ err' = err)).
Proof.
  unfold findOrReturnPartialRouteWithSettings. rewrite bind_run.
  unfold V2Actor.FindRouteBoundToSpaceWithSettings.
  destruct (V2Actor_FindRouteBoundToSpaceWithSettings actor tr route)
    as [[found ws] err].
  exists found, ws, err.
  destruct err as [[]|]; rewrite ret_run; eexists _, _;
    (split; [reflexivity|]); first [by left|by right].
Qed.

Lemma loop_result_error spaceGUID D unknownRoutes calculatedRoutes ws0 tr e :
  loop_result actor spaceGUID D unknownRoutes calculatedRoutes ws0 tr
    (Returns ([], ws0, Some e, tr)).
Proof. split; [done|]. exists []. by rewrite !app_nil_r. Qed.

Lemma CalculateRoutes_loop_spec spaceGUID D unknownRoutes :
  ∀ calculatedRoutes ws0 tr,
    loop_result actor spaceGUID D unknownRoutes calculatedRoutes ws0 tr
      (CalculateRoutes_loop actor spaceGUID D unknownRoutes
         calculatedRoutes ws0 tr).
Proof.
  induction unknownRoutes as [|raw rest IH]; intros calculatedRoutes ws0 tr.
  - simpl. exists [], []. rewrite !app_nil_r. by split_and!.
  - simpl CalculateRoutes_loop.
    destruct (parseURL actor raw) as [[[root port] path] [e|]] eqn:Hparse;
      [apply loop_result_error|].
    destruct (calculateRoute root D) as [[[host domain] domainErr]|] eqn:Hcalc.
    2:{ exists raw, root, port, path. split_and!; [left|done|].
        by eapply calculateRoute_Panics. }
    destruct domainErr as [e|].
    { destruct e; apply loop_result_error. }
    set (potentialRoute := mkRoute _ _ _ _ _ _).
    destruct (Route_Validate actor potentialRoute) eqn:Hvalid;
      [apply loop_result_error|].
    rewrite bind_run.
    destruct (findOrReturnPartialRouteWithSettings_run potentialRoute tr)
      as (found & ws & err & r' & err' & -> & Hfind).
    set (ev := EvFindRouteBoundToSpaceWithSettings _ found ws err).
    assert (resolved_from actor spaceGUID D [ev] raw r' ∨ err' ≠ None) as Hres.
    { destruct Hfind as [(-> & -> & ->)|(Hne & -> & ->)].
      - left. exists root, port, path, host, domain.
        split; [done|]. split; [done|]. cbv zeta. split; [done|].
        exists found, ws, (Some RouteNotFoundError).
        split; [by left|by left].
      - destruct err as [e|]; [by right|left].
        exists root, port, path, host, domain.
        split; [done|]. split; [done|]. cbv zeta. split; [done|].
        exists found, ws, None. split; [by left|by right]. }
    destruct err' as [e|].
    { split; [done|]. exists [ev]. simpl. by rewrite app_nil_r. }
    destruct Hres as [Hres|]; [|done].
    specialize (IH (calculatedRoutes ++ [r']) (ws0 ++ ws) (tr ++ [ev])).
    destruct (CalculateRoutes_loop actor spaceGUID D rest
                (calculatedRoutes ++ [r']) (ws0 ++ ws) (tr ++ [ev]))
      as [[[[result warnings] [e|]] tr']|]; simpl in IH |- *.
    + destruct IH as (-> & evs & -> & ->). split; [done|].
      exists (ev :: evs). by rewrite <- !app_assoc.
    + destruct IH as (resolved & evs & -> & -> & -> & HF).
      exists (r' :: resolved), (ev :: evs). rewrite <- !app_assoc.
      split_and!; try done. constructor.
      * eapply resolved_from_mono; [|done]. set_solver.
      * eapply Forall2_impl; [done|]. intros ??.
        apply resolved_from_mono. set_solver.
    + destruct IH as (raw' & root' & port' & path' & ? & ? & ?).
      exists raw', root', port', path'. split_and!; try done. by right.
Qed.

(** Once the unknown routes parse and the domains are found,
    [CalculateRoutes] is the loop over the unknown routes. *)
Lemma CalculateRoutes_run routes orgGUID spaceGUID existingRoutes tr
    P foundDomains ws :
  generatePossibleDomains actor (unknown_routes actor routes existingRoutes)
  = (P, None) →
  V2Actor_GetDomainsByNameAndOrganization actor tr P orgGUID
  = (foundDomains, ws, None) →
  CalculateRoutes actor routes orgGUID spaceGUID existingRoutes tr
  = CalculateRoutes_loop actor spaceGUID (nameToFoundDomain foundDomains)
      (unknown_routes actor routes existingRoutes) existingRoutes ws
      (tr ++ [EvGetDomainsByNameAndOrganization P orgGUID foundDomains ws
                None]).
Proof.
  intros Hgen Hget. unfold CalculateRoutes.
  rewrite splitExistingRoutes_spec, Hgen, bind_run.
  unfold V2Actor.GetDomainsByNameAndOrganization. by rewrite Hget.
Qed.

(** The loop over a list of routes is the loop over its first routes
    and then, if that succeeds, the loop over the others. *)
Lemma CalculateRoutes_loop_app spaceGUID D pre rest :
  ∀ calculatedRoutes ws0 tr,
    CalculateRoutes_loop actor spaceGUID D (pre ++ rest)
      calculatedRoutes ws0 tr
    = match CalculateRoutes_loop actor spaceGUID D pre
              calculatedRoutes ws0 tr with
      | Returns (calculatedRoutes', ws', None, tr') =>
          CalculateRoutes_loop actor spaceGUID D rest
            calculatedRoutes' ws' tr'
      | stopped => stopped
      end.
Proof.
  induction pre as [|raw pre IH]; intros calculatedRoutes ws0 tr; [done|].
  simpl app. simpl CalculateRoutes_loop.
  destruct (parseURL actor raw) as [[[root port] path] [e|]]; [done|].
  destruct (calculateRoute root D) as [[[host domain] domainErr]|]; [|done].
  destruct domainErr as [e|]; [by destruct e|].
  set (potentialRoute := mkRoute _ _ _ _ _ _).
  destruct (Route_Validate actor potentialRoute); [done|].
  rewrite !bind_run.
  destruct (findOrReturnPartialRouteWithSettings actor potentialRoute tr)
    as [[[[r ws] [e|]] tr']|]; [done| |done].
  apply IH.
Qed.

Lemma CalculateRoutes_loop_no_dot spaceGUID D raw rest calculatedRoutes
    ws0 tr root port path :
  parseURL actor raw = (root, port, path, None) →
  strings.Count root "." = 0 →
  CalculateRoutes_loop actor spaceGUID D (raw :: rest) calculatedRoutes
    ws0 tr = Panics.
Proof.
  intros Hparse H0. simpl. rewrite Hparse.
  by rewrite calculateRoute_unfold, (splitHost_no_dot _ H0).
Qed.

(** The loop panics only at a route whose hostname has no dot, after it
    has gone through the routes before it without an error. *)
Lemma CalculateRoutes_loop_Panics spaceGUID D unknownRoutes :
  ∀ calculatedRoutes ws0 tr,
    CalculateRoutes_loop actor spaceGUID D unknownRoutes
      calculatedRoutes ws0 tr = Panics →
    ∃ pre raw post root port path resolved ws' tr',
      unknownRoutes = pre ++ raw :: post
      ∧ parseURL actor raw = (root, port, path, None)
      ∧ strings.Count root "." = 0
      ∧ CalculateRoutes_loop actor spaceGUID D pre calculatedRoutes ws0 tr
        = Returns (resolved, ws', None, tr').
Proof.
  induction unknownRoutes as [|raw rest IH]; intros calculatedRoutes ws0 tr;
    [done|].
  simpl CalculateRoutes_loop.
  destruct (parseURL actor raw) as [[[root port] path] [e|]] eqn:Hparse;
    [done|].
  destruct (calculateRoute root D) as [[[host domain] domainErr]|] eqn:Hcalc.
  2:{ intros _.
      exists [], raw, rest, root, port, path, calculatedRoutes, ws0, tr.
      split_and!; try done. by eapply calculateRoute_Panics. }
  destruct domainErr as [e|]; [by destruct e|].
  set (potentialRoute := mkRoute _ _ _ _ _ _).
  destruct (Route_Validate actor potentialRoute) eqn:Hvalid; [done|].
  rewrite bind_run.
  destruct (findOrReturnPartialRouteWithSettings_run potentialRoute tr)
    as (found & ws & err & r' & err' & Hrun & _).
  rewrite Hrun. destruct err' as [e|]; [done|].
  intros (pre & raw' & post & root' & port' & path' & resolved & ws' & tr'
          & -> & ? & ? & Hpre)%IH.
  exists (raw :: pre), raw', post, root', port', path', resolved, ws', tr'.
  split_and!; try done.
  simpl CalculateRoutes_loop. rewrite Hparse, Hcalc.
  fold potentialRoute. by rewrite Hvalid, bind_run, Hrun.
Qed.

End calculator.

(** C3, as amended.  [CalculateRoutes] passes every existing route
    through unchanged, whether a raw route matches it or not, and resolves
    the raw routes that match no existing route by name (the name being
    compared without a leading scheme); when it succeeds its result is the
    existing routes followed by the newly resolved routes, one for each
    unknown raw route, in order.  It panics only on an unknown raw route
    whose hostname has no dot. *)
Theorem CalculateRoutes_contract :
  (∀ actor routes orgGUID spaceGUID existingRoutes tr,
     match CalculateRoutes actor routes orgGUID spaceGUID existingRoutes tr
     with
     | Returns (result, warnings, None, tr') =>
         ∃ resolved P foundDomains ws evs,
           result = existingRoutes ++ resolved
           ∧ tr' = tr ++ EvGetDomainsByNameAndOrganization P orgGUID
                           foundDomains ws None :: evs
           ∧ warnings = ws ++ flat_map ev_warnings evs
           ∧ Forall2
               (resolved_from actor spaceGUID
                  (nameToFoundDomain foundDomains) evs)
               (unknown_routes actor routes existingRoutes) resolved
     | Returns (result, _, Some _, _) => result = []
     | Panics =>
         ∃ raw root port path,
           raw ∈ unknown_routes actor routes existingRoutes
           ∧ parseURL actor raw = (root, port, path, None)
           ∧ strings.Count root "." = 0
     end)
  ∧ (∀ actor raw routes existingRoutes,
       raw ∈ unknown_routes actor routes existingRoutes
       ↔ raw ∈ routes
         ∧ ¬ ∃ r, r ∈ existingRoutes
                  ∧ Route_String actor r = startWithProtocol_strip actor raw)
  ∧ (let existing := Demo.route "r1" "www" in
     (CalculateRoutes (Demo.actor [Demo.example_com] "")
        ["http://www.example.com"; "api.example.com"] "org" "space"
        [existing] []
      = Returns
          ([existing;
            mkRoute "" "api" Demo.example_com "" NullInt_zero "space"],
           [], None,
           [EvGetDomainsByNameAndOrganization
              {[ "api.example.com"; "example.com" ]} "org"
              [Demo.example_com] [] None;
            EvFindRouteBoundToSpaceWithSettings
              (mkRoute "" "api" Demo.example_com "" NullInt_zero "space")
              Route_zero [] (Some RouteNotFoundError)]))).
Proof.
  split_and!.
  - intros actor routes orgGUID spaceGUID existingRoutes tr.
    unfold CalculateRoutes. rewrite splitExistingRoutes_spec.
    destruct (generatePossibleDomains actor
                (unknown_routes actor routes existingRoutes))
      as [P [e|]]; [done|].
    rewrite bind_run. unfold V2Actor.GetDomainsByNameAndOrganization.
    destruct (V2Actor_GetDomainsByNameAndOrganization actor tr P orgGUID)
      as [[foundDomains ws] err].
    destruct err as [e|]; [done|].
    set (ev := EvGetDomainsByNameAndOrganization _ _ _ _ _).
    fold (nameToFoundDomain foundDomains).
    pose proof (CalculateRoutes_loop_spec actor spaceGUID
                  (nameToFoundDomain foundDomains)
                  (unknown_routes actor routes existingRoutes)
                  existingRoutes ([] ++ ws) (tr ++ [ev])) as Hloop.
    destruct (CalculateRoutes_loop actor spaceGUID _ _ _ _ _)
      as [[[[result warnings] [e|]] tr']|]; simpl in Hloop |- *.
    + by destruct Hloop as [-> _].
    + destruct Hloop as (resolved & evs & -> & -> & -> & HF).
      exists resolved, P, foundDomains, ws, evs.
      by rewrite <- app_assoc.
    + done.
  - intros actor raw routes existingRoutes. unfold unknown_routes.
    rewrite list_elem_of_filter, <- routeInListByName_spec.
    destruct (routeInListByName actor raw existingRoutes).2; naive_solver.
  - vm_compute. reflexivity.
Qed.

(** C3 as stated fails: with no raw route at all, the one existing route
    is in the result all the same, although no raw route matches it and
    none is resolved. *)
Lemma CalculateRoutes_keeps_unmatched_existing_route :
  let existing := Demo.route "r1" "www" in
  passed_through (Demo.actor [] "") [] [existing] = []
  ∧ unknown_routes (Demo.actor [] "") [] [existing] = []
  ∧ (∃ tr', CalculateRoutes (Demo.actor [] "") [] "org" "space" [existing] []
            = Returns ([existing], [], None, tr'))
  ∧ ¬ (∃ tr', CalculateRoutes (Demo.actor [] "") [] "org" "space"
                [existing] []
              = Returns (passed_through (Demo.actor [] "") [] [existing] ++ [],
                         [], None, tr')).
Proof.
  intros existing. split_and!; [done|done|eexists; vm_compute; reflexivity|].
  intros [tr' Htr]. vm_compute in Htr. discriminate.
Qed.

(** C10, as amended.  A hostname without a dot makes [splitHost] index
    past the end of a one-element split: [splitHost] and [calculateRoute]
    panic on it, whatever the known domains, the hostname itself
    included, and return no error value.  [CalculateRoutes] panics
    exactly when it reaches such a route: every unknown raw route
    parses, the lookup of the domains succeeds, the hostname of some
    unknown raw route has no dot, and the loop has gone through the
    unknown routes before it without an error.  With such a route among
    the unknown raw routes [CalculateRoutes] never succeeds: when it does
    not panic it returns no route and the error of an earlier step. *)
Theorem no_dot_hostname_panics :
  (∀ url, strings.Count url "." = 0 →
     length (strings.SplitN url "." 2) = 1%nat
     ∧ strings.SplitN url "." 2 !! 1%nat = None
     ∧ splitHost url = Panics
     ∧ ∀ D, calculateRoute url D = Panics)
  ∧ (∀ actor routes orgGUID spaceGUID existingRoutes tr,
       CalculateRoutes actor routes orgGUID spaceGUID existingRoutes tr
       = Panics
       ↔ ∃ P foundDomains warnings pre raw post root port path
           resolved ws' tr',
           generatePossibleDomains actor
             (unknown_routes actor routes existingRoutes) = (P, None)
           ∧ V2Actor_GetDomainsByNameAndOrganization actor tr P orgGUID
             = (foundDomains, warnings, None)
           ∧ unknown_routes actor routes existingRoutes
             = pre ++ raw :: post
           ∧ parseURL actor raw = (root, port, path, None)
           ∧ strings.Count root "." = 0
           ∧ CalculateRoutes_loop actor spaceGUID
               (nameToFoundDomain foundDomains) pre existingRoutes warnings
               (tr ++ [EvGetDomainsByNameAndOrganization P orgGUID
                         foundDomains warnings None])
             = Returns (resolved, ws', None, tr'))
  ∧ (∀ actor routes orgGUID spaceGUID existingRoutes tr
       raw root port path,
       raw ∈ unknown_routes actor routes existingRoutes →
       parseURL actor raw = (root, port, path, None) →
       strings.Count root "." = 0 →
       match CalculateRoutes actor routes orgGUID spaceGUID existingRoutes tr
       with
       | Returns (result, _, err, _) => err ≠ None ∧ result = []
       | Panics => True
       end).
Proof.
  split_and!.
  - intros url H0. rewrite (SplitN_2_no_dot _ H0). split_and!; try done.
    + by apply splitHost_no_dot.
    + intros D. rewrite calculateRoute_unfold.
      by rewrite (splitHost_no_dot _ H0).
  - intros actor routes orgGUID spaceGUID existingRoutes tr. split.
    + unfold CalculateRoutes. rewrite splitExistingRoutes_spec.
      destruct (generatePossibleDomains actor
                  (unknown_routes actor routes existingRoutes))
        as [P [e|]] eqn:Hgen; [done|].
      rewrite bind_run. unfold V2Actor.GetDomainsByNameAndOrganization.
      destruct (V2Actor_GetDomainsByNameAndOrganization actor tr P orgGUID)
        as [[foundDomains ws] [e|]] eqn:Hget; [done|].
      fold (nameToFoundDomain foundDomains).
      intros (pre & raw & post & root & port & path & resolved & ws' & tr'
              & ? & ? & ? & ?)%CalculateRoutes_loop_Panics.
      by exists P, foundDomains, ws, pre, raw, post, root, port, path,
        resolved, ws', tr'.
    + intros (P & foundDomains & ws & pre & raw & post & root & port & path
              & resolved & ws' & tr' & Hgen & Hget & Hsplit & Hparse & H0
              & Hpre).
      rewrite (CalculateRoutes_run _ _ _ _ _ _ _ _ _ Hgen Hget), Hsplit.
      rewrite CalculateRoutes_loop_app, Hpre.
      by eapply CalculateRoutes_loop_no_dot.
  - intros actor routes orgGUID spaceGUID existingRoutes tr
      raw root port path Hin Hparse H0.
    unfold CalculateRoutes. rewrite splitExistingRoutes_spec.
    destruct (generatePossibleDomains actor
                (unknown_routes actor routes existingRoutes))
      as [P [e|]]; [done|].
    rewrite bind_run. unfold V2Actor.GetDomainsByNameAndOrganization.
    destruct (V2Actor_GetDomainsByNameAndOrganization actor tr P orgGUID)
      as [[foundDomains ws] err].
    destruct err as [e|]; [done|].
    apply list_elem_of_split in Hin as (pre & post & ->).
    rewrite CalculateRoutes_loop_app.
    pose proof (CalculateRoutes_loop_spec actor spaceGUID
                  (foldl (λ m d, <[domain_Name d := d]> m) ∅ foundDomains)
                  pre existingRoutes ([] ++ ws)
                  (tr ++ [EvGetDomainsByNameAndOrganization P orgGUID
                            foundDomains ws None])) as Hloop.
    destruct (CalculateRoutes_loop actor spaceGUID _ pre _ _ _)
      as [[[[result warnings] [e|]] tr']|]; simpl in Hloop; cbv beta iota.
    + by destruct Hloop as [-> _].
    + by rewrite (CalculateRoutes_loop_no_dot _ _ _ _ _ _ _ _ _ _ _ Hparse H0).
    + done.
Qed.

Lemma no_dot_hostname_panics_witness :
  strings.Count "localhost" "." = 0
  ∧ splitHost "localhost" = Panics
  ∧ calculateRoute "localhost" {[ "localhost" := Demo.localhost ]} = Panics
  ∧ CalculateRoutes (Demo.actor [Demo.example_com] "")
      ["api.example.com"; "localhost"] "org" "space" [] []
    = Panics.
Proof.
  assert (strings.Count "localhost" "." = 0) as H0 by reflexivity.
  destruct (proj1 no_dot_hostname_panics "localhost" H0) as (_ & _ & Hs & Hc).
  split_and!; [done|done|apply Hc|].
  apply (proj2 (proj1 (proj2 no_dot_hostname_panics)
                  (Demo.actor [Demo.example_com] "")
                  ["api.example.com"; "localhost"] "org" "space" [] [])).
  exists {[ "api.example.com"; "example.com" ]}, [Demo.example_com], [],
    ["api.example.com"], "localhost", [], "localhost", NullInt_zero, "",
    [mkRoute "" "api" Demo.example_com "" NullInt_zero "space"], [],
    [EvGetDomainsByNameAndOrganization
       {[ "api.example.com"; "example.com" ]} "org" [Demo.example_com] []
       None;
     EvFindRouteBoundToSpaceWithSettings
       (mkRoute "" "api" Demo.example_com "" NullInt_zero "space")
       Route_zero [] (Some RouteNotFoundError)].
  split_and!; try reflexivity; vm_compute; reflexivity.
Defined.

(** C10 as stated fails for [CalculateRoutes]: given a raw route whose
    hostname has no dot, it returns an error value when an earlier route
    has no matching domain or when the lookup of the domains fails, and
    it succeeds when the raw route is the name of an existing route. *)
Lemma CalculateRoutes_no_dot_hostname_not_reached :
  CalculateRoutes (Demo.actor [] "") ["api.example.org"; "localhost"]
    "org" "space" [] []
  = Returns ([], [], Some (NoMatchingDomainError "api.example.org"),
             [EvGetDomainsByNameAndOrganization
                {[ "api.example.org"; "example.org" ]} "org" [] [] None])
  ∧ CalculateRoutes Demo.offline ["localhost"] "org" "space" [] []
    = Returns ([], ["lookup failed"], Some (OtherError "lookup failed"),
               [EvGetDomainsByNameAndOrganization ∅ "org" []
                  ["lookup failed"] (Some (OtherError "lookup failed"))])
  ∧ (let existing :=
       mkRoute "r1" "" Demo.localhost "" NullInt_zero "space" in
     CalculateRoutes (Demo.actor [] "") ["localhost"] "org" "space"
       [existing] []
     = Returns ([existing], [], None,
                [EvGetDomainsByNameAndOrganization ∅ "org" [] [] None])).
Proof.
  split_and!; vm_compute; reflexivity.
Qed.

(** * Further properties *)

(** ** Domain matcher *)

(** X1.  [splitHost] either panics, on a string without a dot, or
    returns two parts from which the string is rebuilt: with exactly one
    dot the host is empty and the domain is the whole string; with more
    dots the string is the host, a dot and the domain, and the host has no
    dot. *)
Theorem splitHost_round_trip (url : string) :
  match splitHost url with
  | Panics => strings.Count url "." = 0
  | Returns (host, domain) =>
      (strings.Count url "." = 1 ∧ host = "" ∧ domain = url)
      ∨ (2 ≤ strings.Count url "."
         ∧ url = host +:+ "." +:+ domain
         ∧ strings.Count host "." = 0
         ∧ strings.Count domain "." = strings.Count url "." - 1)
  end.
Proof.
  destruct (splitHost_cases url)
    as [[H0 ->]|[[H1 ->]|[H2 (a & b & Hcut & ->)]]]; [done|by left|right].
  destruct (cut_Some _ _ _ _ Hcut) as [Hurl Ha].
  split_and!; try done.
  rewrite Hurl, Count_sep_app. lia.
Qed.

(** What [calculateRoute h D] returns, for every [h] and [D]: the labels
    stripped, none of them empty, and the suffix [s] of [h] at which it
    stopped, no longer suffix being a name in [D]. *)
Lemma calculateRoute_stops (n : nat) :
  ∀ h D, (String.length h < n)%nat →
    match calculateRoute h D with
    | Panics => strings.Count h "." = 0
    | Returns (hosts, d, err) =>
        ∃ s, dot_suffix s h ∧ 1 ≤ strings.Count s "."
             ∧ strings.Join (hosts ++ [s]) "." = h
             ∧ Forall (λ l, l ≠ "" ∧ strings.Count l "." = 0) hosts
             ∧ (∀ s', dot_suffix s' h →
                      (String.length s < String.length s')%nat →
                      D !! s' = None)
             ∧ match err with
               | None => D !! s = Some d
               | Some e =>
                   e = DomainNotFoundError s ∧ d = Domain_zero
                   ∧ D !! s = None
                   ∧ (strings.Count s "." = 1 ∨ first_byte s = Some "."%char)
               end
    end.
Proof.
  induction n as [|n IH]; intros h D Hn; [lia|].
  rewrite calculateRoute_unfold.
  assert (∀ s', dot_suffix s' h →
                (String.length h < String.length s')%nat → D !! s' = None)
    as Hlonger.
  { intros s' Hs' ?. apply dot_suffix_length in Hs'. lia. }
  destruct (splitHost_cases h)
    as [[H0 ->]|[[H1 ->]|[H2 (a & b & Hcut & ->)]]]; [done|..].
  - destruct (D !! h) as [d|] eqn:HD.
    + exists h. split_and!; auto using dot_suffix_refl; lia.
    + rewrite decide_True by done. exists h.
      split_and!; auto using dot_suffix_refl; lia.
  - destruct (D !! h) as [d|] eqn:HD.
    { exists h. split_and!; auto using dot_suffix_refl; lia. }
    destruct (cut_Some _ _ _ _ Hcut) as [Hh Ha0].
    case_decide as Ha.
    { exists h. split_and!; auto using dot_suffix_refl; try lia.
      right. rewrite Hh, Ha. done. }
    assert (strings.Count h "." = 1 + strings.Count b ".") as Hcb.
    { rewrite Hh at 1. rewrite Count_sep_app. lia. }
    assert (String.length b < String.length h)%nat as Hlen.
    { rewrite Hh, sapp_length. simpl. lia. }
    specialize (IH b D ltac:(lia)).
    destruct (calculateRoute b D) as [[[hosts d] err]|]; [|lia].
    destruct IH as (s & Hs & Hcs & Hj & Hhosts & Hlong & Herr).
    exists s. split_and!; try done.
    + apply (dot_suffix_cut _ _ _ _ Hcut). by right.
    + rewrite <- app_comm_cons.
      rewrite Join_cons by (by destruct hosts). rewrite Hj. by rewrite Hh.
    + by constructor.
    + intros s' Hs' Hlt. apply (dot_suffix_cut _ _ _ _ Hcut) in Hs'.
      destruct Hs' as [->|Hs']; [done|by apply Hlong].
Qed.

(** X2.  [calculateRoute] panics exactly on the hostnames without a dot,
    whatever the known domains. *)
Theorem calculateRoute_panics_iff (h : string) (D : gmap string Domain) :
  calculateRoute h D = Panics ↔ strings.Count h "." = 0.
Proof.
  split; [apply calculateRoute_Panics|].
  intros H0. rewrite calculateRoute_unfold. by rewrite splitHost_no_dot.
Qed.

(** X3.  When [calculateRoute] fails it returns the zero domain and a
    [DomainNotFoundError] that names, not the hostname it was given, but
    the suffix at which it gave up: the last two labels, or a suffix that
    starts with an empty label.  The labels stripped before are returned
    with the error, and they and that suffix rebuild the hostname; no
    suffix at least as long is a name of a known domain. *)
Theorem calculateRoute_failure (h : string) (D : gmap string Domain)
    (hosts : list string) (d : Domain) (e : error) :
  calculateRoute h D = Returns (hosts, d, Some e) →
  d = Domain_zero
  ∧ ∃ name, e = DomainNotFoundError name
            ∧ dot_suffix name h
            ∧ strings.Join (hosts ++ [name]) "." = h
            ∧ (strings.Count name "." = 1 ∨ first_byte name = Some "."%char)
            ∧ ∀ s, dot_suffix s h →
                   (String.length name ≤ String.length s)%nat →
                   D !! s = None.
Proof.
  intros Hr.
  pose proof (calculateRoute_stops (S (String.length h)) h D ltac:(lia)) as H.
  rewrite Hr in H.
  destruct H as (s & Hs & Hcs & Hj & Hhosts & Hlong & -> & -> & HD & Hend).
  split; [done|]. exists s. split_and!; try done.
  intros s' Hs' Hle.
  destruct (decide (String.length s = String.length s')) as [Heq|Hne];
    [|apply Hlong; [done|lia]].
  assert (s' = s) as ->; [|done].
  destruct Hs as [->|[p Hp]].
  - destruct Hs' as [->|[q ->]]; [done|].
    change (q +:+ "." +:+ s') with (q +:+ String "." s') in Heq.
    rewrite sapp_length in Heq. simpl in Heq. lia.
  - destruct Hs' as [->|[q Hq]].
    + rewrite Hp in Heq.
      change (p +:+ "." +:+ s) with (p +:+ String "." s) in Heq.
      rewrite sapp_length in Heq. simpl in Heq. lia.
    + rewrite Hp in Hq. clear -Hq Heq.
      change (p +:+ "." +:+ s = q +:+ "." +:+ s')
        with (p +:+ String "." s = q +:+ String "." s') in Hq.
      revert q Hq. induction p as [|c p IH]; intros [|c' q] Hq.
      * by injection Hq.
      * rewrite sapp_nil, sapp_cons in Hq. injection Hq as _ Hq.
        rewrite Hq, sapp_length in Heq. simpl in Heq. lia.
      * rewrite sapp_nil, sapp_cons in Hq. injection Hq as _ Hq.
        rewrite <- Hq, sapp_length in Heq. simpl in Heq. lia.
      * rewrite !sapp_cons in Hq. injection Hq as _ Hq. by apply (IH q).
Qed.

Lemma calculateRoute_failure_witness :
  calculateRoute "a.b.c" {[ "example.com" := Demo.example_com ]}
  = Returns (["a"], Domain_zero, Some (DomainNotFoundError "b.c"))
  ∧ strings.Join (["a"] ++ ["b.c"]) "." = "a.b.c".
Proof.
  assert (calculateRoute "a.b.c" {[ "example.com" := Demo.example_com ]}
          = Returns (["a"], Domain_zero, Some (DomainNotFoundError "b.c")))
    as Hrun by (vm_compute; reflexivity).
  split; [exact Hrun|].
  destruct (calculateRoute_failure _ _ _ _ _ Hrun)
    as (_ & name & [= <-] & _ & Hj & _).
  exact Hj.
Defined.

Lemma calculateRoute_agree (n : nat) :
  ∀ h (D D' : gmap string Domain), (String.length h < n)%nat →
    (∀ s, dot_suffix s h → 1 ≤ strings.Count s "." → D !! s = D' !! s) →
    calculateRoute h D = calculateRoute h D'.
Proof.
  induction n as [|n IH]; intros h D D' Hn Hagree; [lia|].
  rewrite (calculateRoute_unfold h D), (calculateRoute_unfold h D').
  destruct (splitHost_cases h)
    as [[H0 ->]|[[H1 ->]|[H2 (a & b & Hcut & ->)]]]; [done|..].
  - by rewrite (Hagree h (dot_suffix_refl h)) by lia.
  - rewrite (Hagree h (dot_suffix_refl h)) by lia.
    destruct (D' !! h); [done|]. case_decide; [done|].
    destruct (cut_Some _ _ _ _ Hcut) as [Hh _].
    rewrite (IH b D D'); [done| |].
    + rewrite Hh, sapp_length in Hn. simpl in Hn. lia.
    + intros s Hs Hc. apply Hagree; [|done].
      apply (dot_suffix_cut _ _ _ _ Hcut). by right.
Qed.

(** X4.  The resolution of a hostname reads the known domains only at
    the candidate names that [generatePossibleDomains] produces for it:
    leaving every other name out of the mapping does not change the
    result of [calculateRoute]. *)
Theorem calculateRoute_reads_candidates_only (h : string)
    (D : gmap string Domain) :
  calculateRoute h
    (filter (λ kv, kv.1 ∈ addPossibleDomains ∅ h) D)
  = calculateRoute h D.
Proof.
  apply (calculateRoute_agree (S (String.length h))); [lia|].
  intros s Hs Hc. apply option_eq. intros d.
  rewrite map_lookup_filter_Some. simpl.
  rewrite addPossibleDomains_spec. naive_solver.
Qed.

Lemma nameToFoundDomain_last (foundDomains : list Domain) (name : string) :
  nameToFoundDomain foundDomains !! name
  = last (filter (λ d, domain_Name d = name) foundDomains).
Proof.
  unfold nameToFoundDomain.
  induction foundDomains as [|d ds IH] using rev_ind; [done|].
  rewrite foldl_app, filter_app. simpl.
  rewrite filter_cons, filter_nil.
  destruct (decide (domain_Name d = name)) as [<-|Hne].
  - by rewrite lookup_insert_eq, last_snoc.
  - rewrite lookup_insert_ne by done. by rewrite app_nil_r.
Qed.

(** X5.  A later domain replaces an earlier one of the same name in the
    map that [CalculateRoutes] builds from the domains found: a name is
    mapped to the last domain of the list that has it, and to none when
    no domain of the list has it. *)
Theorem nameToFoundDomain_lookup (foundDomains : list Domain)
    (name : string) :
  nameToFoundDomain foundDomains !! name
  = last (filter (λ d, domain_Name d = name) foundDomains).
Proof. apply nameToFoundDomain_last. Qed.

Lemma Join_snoc (l : list string) (s sep : string) :
  l ≠ [] →
  strings.Join (l ++ [s]) sep = strings.Join l sep +:+ sep +:+ s.
Proof.
  induction l as [|e l IH]; [done|]. intros _.
  destruct l as [|e' l]; [done|].
  rewrite <- app_comm_cons, Join_cons by done.
  rewrite IH by done. rewrite (Join_cons e (e' :: l)) by done.
  by rewrite !sapp_assoc.
Qed.

(** X6.  A route that [CalculateRoutes] resolves spells its hostname:
    when the resolution of [h] against the domains found succeeds, the
    domain returned is one of the domains found, its name has a dot, and
    [h] is that name when no label was stripped, and otherwise the
    stripped labels joined by dots (the host of the route), a dot and
    that name. *)
Theorem calculateRoute_spells_hostname (h : string)
    (foundDomains : list Domain) (hosts : list string) (d : Domain) :
  calculateRoute h (nameToFoundDomain foundDomains)
  = Returns (hosts, d, None) →
  d ∈ foundDomains
  ∧ 1 ≤ strings.Count (domain_Name d) "."
  ∧ Forall (λ l, l ≠ "" ∧ strings.Count l "." = 0) hosts
  ∧ h = (if decide (hosts = []) then domain_Name d
         else strings.Join hosts "." +:+ "." +:+ domain_Name d).
Proof.
  intros Hr.
  pose proof (calculateRoute_stops (S (String.length h)) h
                (nameToFoundDomain foundDomains) ltac:(lia)) as H.
  rewrite Hr in H. destruct H as (s & Hs & Hcs & Hj & Hhosts & _ & HD).
  rewrite nameToFoundDomain_last in HD.
  apply last_Some_elem_of, list_elem_of_filter in HD as [<- Hd].
  split_and!; try done.
  case_decide as Hnil.
  - by rewrite Hnil in Hj.
  - by rewrite Join_snoc in Hj.
Qed.

Lemma calculateRoute_spells_hostname_witness :
  calculateRoute "www.foo.example.com"
    (nameToFoundDomain [Demo.com; Demo.example_com])
  = Returns (["www"; "foo"], Demo.example_com, None)
  ∧ "www.foo.example.com"
    = strings.Join ["www"; "foo"] "." +:+ "."
      +:+ domain_Name Demo.example_com.
Proof.
  assert (calculateRoute "www.foo.example.com"
            (nameToFoundDomain [Demo.com; Demo.example_com])
          = Returns (["www"; "foo"], Demo.example_com, None))
    as Hrun by (vm_compute; reflexivity).
  split; [exact Hrun|].
  destruct (calculateRoute_spells_hostname _ _ _ _ Hrun) as (_ & _ & _ & Hh).
  exact Hh.
Defined.

(** ** Route calculator *)

Lemma parseHostnames_cases actor routes acc :
  match parseHostnames actor routes acc with
  | (hs, None) => Forall (λ raw, (parseURL actor raw).2 = None) routes
  | (hs, Some e) => hs = [] ∧ first_parse_error actor routes e
  end.
Proof.
  revert acc. induction routes as [|raw routes IH]; intros acc; simpl.
  - constructor.
  - destruct (parseURL actor raw) as [[[host port] path] [e|]] eqn:Hparse.
    + split; [done|]. exists 0%nat, raw. rewrite Hparse.
      split_and!; try done. lia.
    + specialize (IH (acc ++ [host])).
      destruct (parseHostnames actor routes (acc ++ [host])) as [hs [e|]].
      * destruct IH as (-> & i & raw' & Hi & He & Hbefore).
        split; [done|]. exists (S i), raw'. split_and!; try done.
        intros [|j] raw'' Hj; simpl.
        -- intros [= <-]. by rewrite Hparse.
        -- apply Hbefore. lia.
      * constructor; [by rewrite Hparse|done].
Qed.

(** X7.  [generatePossibleDomains] is all or nothing: when every route
    parses it returns candidates and no error; otherwise it returns no
    candidate at all and the error of the first route that does not
    parse, also when that route comes after routes that parse. *)
Theorem generatePossibleDomains_first_error (actor : Actor)
    (routes : list string) :
  match generatePossibleDomains actor routes with
  | (P, None) => Forall (λ raw, (parseURL actor raw).2 = None) routes
  | (P, Some e) => P = ∅ ∧ first_parse_error actor routes e
  end.
Proof.
  unfold generatePossibleDomains.
  pose proof (parseHostnames_cases actor routes []) as H.
  destruct (parseHostnames actor routes []) as [hs [e|]]; [|done].
  by destruct H.
Qed.

(** X8.  A raw route that does not parse fails the whole calculation
    before any call to the client: [CalculateRoutes] returns no route, no
    warning and the error of the first unknown route that does not parse,
    and the trace of calls is as it was, wherever that route stands among
    the routes. *)
Theorem CalculateRoutes_malformed_route (actor : Actor)
    (routes : list string) (orgGUID spaceGUID : string)
    (existingRoutes : list Route) (tr : Trace) :
  Exists (λ raw, (parseURL actor raw).2 ≠ None)
    (unknown_routes actor routes existingRoutes) →
  ∃ e, first_parse_error actor
         (unknown_routes actor routes existingRoutes) e
       ∧ CalculateRoutes actor routes orgGUID spaceGUID existingRoutes tr
         = Returns ([], [], Some e, tr).
Proof.
  intros Hex. unfold CalculateRoutes. rewrite splitExistingRoutes_spec.
  unfold generatePossibleDomains.
  pose proof (parseHostnames_cases actor
                (unknown_routes actor routes existingRoutes) []) as H.
  destruct (parseHostnames actor _ []) as [hs [e|]].
  - destruct H as [_ H]. by exists e.
  - apply Exists_exists in Hex as (raw & Hin & Hraw).
    rewrite Forall_forall in H. by specialize (H raw Hin).
Qed.

Lemma CalculateRoutes_malformed_route_witness :
  let actor :=
    {| V2Actor_MapRouteToApplication := λ _ _ _, ([], None);
       V2Actor_UnmapRouteFromApplication := λ _ _ _, ([], None);
       V2Actor_CreateRoute := λ _ r _, (r, [], None);
       V2Actor_GetDomainsByNameAndOrganization := λ _ _ _, ([], [], None);
       V2Actor_FindRouteBoundToSpaceWithSettings := λ _ r,
         (r, [], None);
       startWithProtocol_MatchString := λ _, false;
       startWithProtocol_strip := λ s, s;
       url_Parse := λ s,
         if decide (s = "http://bad route") then inl (OtherError "parse")
         else inr (mkURL "a.example.com" "" "/");
       NullInt_ParseStringValue := λ _, (NullInt_zero, None);
       Route_String := route_Host;
       Route_Validate := λ _, None |} in
  CalculateRoutes actor ["a.example.com"; "bad route"] "org" "space" [] []
  = Returns ([], [], Some (OtherError "parse"), []).
Proof.
  intros actor.
  destruct (CalculateRoutes_malformed_route actor
              ["a.example.com"; "bad route"] "org" "space" [] [])
    as (e & (i & raw & Hi & He & Hbefore) & Hrun).
  - apply Exists_cons_tl, Exists_cons_hd. vm_compute. discriminate.
  - rewrite Hrun. do 3 f_equal.
    destruct i as [|[|i]]; simpl in Hi; [| |done].
    + injection Hi as <-. vm_compute in He. discriminate.
    + injection Hi as <-. vm_compute in He. by injection He as <-.
Defined.

(** X9.  When every raw route matches an existing route, [CalculateRoutes]
    still asks the client for domains, with no candidate name: it makes
    that one call, and returns the existing routes when the call
    succeeds, and no route at all when it fails. *)
Theorem CalculateRoutes_all_known (actor : Actor) (routes : list string)
    (orgGUID spaceGUID : string) (existingRoutes : list Route)
    (tr : Trace) :
  unknown_routes actor routes existingRoutes = [] →
  ∃ foundDomains ws err,
    V2Actor_GetDomainsByNameAndOrganization actor tr ∅ orgGUID
    = (foundDomains, ws, err)
    ∧ CalculateRoutes actor routes orgGUID spaceGUID existingRoutes tr
      = Returns ((if err is None then existingRoutes else []), ws, err,
                 tr ++ [EvGetDomainsByNameAndOrganization ∅ orgGUID
                          foundDomains ws err]).
Proof.
  intros Hnone. unfold CalculateRoutes.
  rewrite splitExistingRoutes_spec, Hnone.
  change (generatePossibleDomains actor []) with (∅ : gset string, @None error).
  cbv beta iota. rewrite bind_run.
  unfold V2Actor.GetDomainsByNameAndOrganization.
  destruct (V2Actor_GetDomainsByNameAndOrganization actor tr ∅ orgGUID)
    as [[foundDomains ws] err].
  exists foundDomains, ws, err. split; [done|]. by destruct err.
Qed.

Lemma CalculateRoutes_all_known_witness :
  CalculateRoutes (Demo.actor [Demo.example_com] "")
    ["http://www.example.com"; "www.example.com"] "org" "space"
    [Demo.route "r1" "www"] []
  = Returns ([Demo.route "r1" "www"], [], None,
             [EvGetDomainsByNameAndOrganization ∅ "org" [] [] None]).
Proof.
  destruct (CalculateRoutes_all_known (Demo.actor [Demo.example_com] "")
              ["http://www.example.com"; "www.example.com"] "org" "space"
              [Demo.route "r1" "www"] [])
    as (foundDomains & ws & err & Hcall & Hrun); [reflexivity|].
  vm_compute in Hcall. injection Hcall as <- <- <-. exact Hrun.
Defined.

Lemma CalculateRoutes_loop_lookups actor spaceGUID D unknownRoutes :
  ∀ calculatedRoutes ws0 tr,
    match CalculateRoutes_loop actor spaceGUID D unknownRoutes
            calculatedRoutes ws0 tr with
    | Returns (_, _, err, tr') =>
        ∃ evs, tr' = tr ++ evs
               ∧ Forall2 (lookup_for actor spaceGUID D)
                   (take (length evs) unknownRoutes) evs
               ∧ (err = None → length evs = length unknownRoutes)
    | Panics => True
    end.
Proof.
  induction unknownRoutes as [|raw rest IH]; intros calculatedRoutes ws0 tr.
  - simpl. exists []. rewrite app_nil_r. by split_and!.
  - assert (∀ (res : list Route * Warnings) (e : error),
              ∃ evs, tr = tr ++ evs
                     ∧ Forall2 (lookup_for actor spaceGUID D)
                         (take (length evs) (raw :: rest)) evs
                     ∧ (Some e = None → length evs = length (raw :: rest)))
      as Hstop.
    { intros _ e. exists []. rewrite app_nil_r. by split_and!. }
    simpl CalculateRoutes_loop.
    destruct (parseURL actor raw) as [[[root port] path] [e|]] eqn:Hparse;
      [by apply (Hstop ([], []))|].
    destruct (calculateRoute root D) as [[[host domain] domainErr]|] eqn:Hcalc;
      [|done].
    destruct domainErr as [e|]; [destruct e; by apply (Hstop ([], []))|].
    set (potentialRoute := mkRoute _ _ _ _ _ _).
    destruct (Route_Validate actor potentialRoute);
      [by apply (Hstop ([], []))|].
    rewrite bind_run.
    destruct (findOrReturnPartialRouteWithSettings_run actor potentialRoute tr)
      as (found & ws & err & r' & err' & -> & _).
    set (ev := EvFindRouteBoundToSpaceWithSettings _ found ws err).
    assert (lookup_for actor spaceGUID D raw ev) as Hev.
    { by exists root, port, path, host, domain, found, ws, err. }
    destruct err' as [e|].
    { exists [ev]. split_and!; try done. simpl. by repeat constructor. }
    specialize (IH (calculatedRoutes ++ [r']) (ws0 ++ ws) (tr ++ [ev])).
    destruct (CalculateRoutes_loop actor spaceGUID D rest _ _ _)
      as [[[[result warnings] err''] tr']|]; [|done].
    destruct IH as (evs & -> & HF & Hlen).
    exists (ev :: evs). rewrite <- app_assoc. split_and!; try done.
    + simpl. by constructor.
    + intros Hnone. simpl. f_equal. by apply Hlen.
Qed.

(** X10.  The calls of [CalculateRoutes], whenever it returns.  It makes
    no call at all only when an unknown raw route does not parse, and
    then it returns the error of the first such route.  Otherwise it
    makes one lookup of domains, for the candidate names of the unknown
    raw routes; when that fails it makes no other call and returns its
    error; else it makes one route lookup for each unknown raw route, in
    order, and no other call: it stops at the first route that fails, and
    when it returns no error every unknown route has had its lookup. *)
Theorem CalculateRoutes_lookups (actor : Actor) (routes : list string)
    (orgGUID spaceGUID : string) (existingRoutes : list Route)
    (tr : Trace) :
  match CalculateRoutes actor routes orgGUID spaceGUID existingRoutes tr with
  | Returns (_, _, err, tr') =>
      (tr' = tr
       ∧ ∃ e, err = Some e
              ∧ first_parse_error actor
                  (unknown_routes actor routes existingRoutes) e)
      ∨ ∃ P foundDomains ws domainsErr evs,
          tr' = tr ++ EvGetDomainsByNameAndOrganization P orgGUID
                          foundDomains ws domainsErr :: evs
          ∧ generatePossibleDomains actor
              (unknown_routes actor routes existingRoutes) = (P, None)
          ∧ V2Actor_GetDomainsByNameAndOrganization actor tr P orgGUID
            = (foundDomains, ws, domainsErr)
          ∧ (domainsErr ≠ None → evs = [] ∧ err = domainsErr)
          ∧ Forall2
              (lookup_for actor spaceGUID (nameToFoundDomain foundDomains))
              (take (length evs)
                 (unknown_routes actor routes existingRoutes)) evs
          ∧ (err = None →
             length evs
             = length (unknown_routes actor routes existingRoutes))
  | Panics => True
  end.
Proof.
  unfold CalculateRoutes. rewrite splitExistingRoutes_spec.
  unfold generatePossibleDomains.
  pose proof (parseHostnames_cases actor
                (unknown_routes actor routes existingRoutes) []) as Hparse.
  destruct (parseHostnames actor _ []) as [hs [e|]].
  { left. split; [done|]. exists e. by destruct Hparse. }
  set (P := foldl addPossibleDomains ∅ hs).
  rewrite bind_run. unfold V2Actor.GetDomainsByNameAndOrganization.
  destruct (V2Actor_GetDomainsByNameAndOrganization actor tr P orgGUID)
    as [[foundDomains ws] domainsErr] eqn:Hget.
  set (ev := EvGetDomainsByNameAndOrganization _ _ _ _ _).
  destruct domainsErr as [e|].
  { right. exists P, foundDomains, ws, (Some e), []. by split_and!. }
  fold (nameToFoundDomain foundDomains).
  pose proof (CalculateRoutes_loop_lookups actor spaceGUID
                (nameToFoundDomain foundDomains)
                (unknown_routes actor routes existingRoutes)
                existingRoutes ([] ++ ws) (tr ++ [ev])) as Hloop.
  destruct (CalculateRoutes_loop actor spaceGUID _ _ _ _ _)
    as [[[[result warnings] err] tr']|]; [|done].
  destruct Hloop as (evs & -> & HF & Hlen).
  right. exists P, foundDomains, ws, None, evs.
  rewrite <- app_assoc. by split_and!.
Qed.

(** X11.  When the unknown raw routes parse, the lookup of the domains
    succeeds and no domain found has a name that is a dot-delimited
    suffix of the hostname of the first unknown raw route,
    [CalculateRoutes] makes no route lookup: it panics when that hostname
    has no dot, and otherwise fails with a [NoMatchingDomainError] that
    carries the raw route as it was given, not its hostname and not the
    name in the [DomainNotFoundError] of the resolution. *)
Theorem CalculateRoutes_no_matching_domain (actor : Actor)
    (routes : list string) (orgGUID spaceGUID : string)
    (existingRoutes : list Route) (tr : Trace)
    (raw : string) (rest : list string) (root : string) (port : NullInt)
    (path : string) (P : gset string) (foundDomains : list Domain)
    (ws : Warnings) :
  unknown_routes actor routes existingRoutes = raw :: rest →
  generatePossibleDomains actor (raw :: rest) = (P, None) →
  V2Actor_GetDomainsByNameAndOrganization actor tr P orgGUID
  = (foundDomains, ws, None) →
  parseURL actor raw = (root, port, path, None) →
  (∀ d, d ∈ foundDomains → ¬ dot_suffix (domain_Name d) root) →
  CalculateRoutes actor routes orgGUID spaceGUID existingRoutes tr
  = if decide (strings.Count root "." = 0) then Panics
    else Returns ([], ws, Some (NoMatchingDomainError raw),
                  tr ++ [EvGetDomainsByNameAndOrganization P orgGUID
                           foundDomains ws None]).
Proof.
  intros Hunknown Hgen Hget Hparse Hnone.
  case_decide as Hdots.
  { rewrite <- Hunknown in Hgen.
    rewrite (CalculateRoutes_run _ _ _ _ _ _ _ _ _ Hgen Hget), Hunknown.
    by eapply CalculateRoutes_loop_no_dot. }
  pose proof (Count_nonneg root ".") as Hnonneg.
  unfold CalculateRoutes. rewrite splitExistingRoutes_spec, Hunknown, Hgen.
  rewrite bind_run. unfold V2Actor.GetDomainsByNameAndOrganization.
  rewrite Hget. fold (nameToFoundDomain foundDomains).
  simpl CalculateRoutes_loop. rewrite Hparse.
  pose proof (calculateRoute_stops (S (String.length root)) root
                (nameToFoundDomain foundDomains) ltac:(lia)) as H.
  destruct (calculateRoute root (nameToFoundDomain foundDomains))
    as [[[hosts d] err]|]; [|lia].
  destruct H as (s & Hs & _ & _ & _ & _ & Herr).
  destruct err as [e|].
  - by destruct Herr as (-> & _).
  - rewrite nameToFoundDomain_last in Herr.
    apply last_Some_elem_of, list_elem_of_filter in Herr as [<- Hd].
    by destruct (Hnone d Hd).
Qed.

Lemma CalculateRoutes_no_matching_domain_witness :
  CalculateRoutes (Demo.actor [Demo.example_com] "")
    ["http://www.other.org"] "org" "space" [] []
  = Returns ([], [], Some (NoMatchingDomainError "http://www.other.org"),
             [EvGetDomainsByNameAndOrganization
                {[ "www.other.org"; "other.org" ]} "org" [] [] None])
  ∧ CalculateRoutes (Demo.actor [Demo.example_com] "")
      ["localhost"] "org" "space" [] []
    = Panics.
Proof.
  split.
  - refine (CalculateRoutes_no_matching_domain
              (Demo.actor [Demo.example_com] "") ["http://www.other.org"]
              "org" "space" [] [] "http://www.other.org" [] "www.other.org"
              NullInt_zero "" {[ "www.other.org"; "other.org" ]} [] []
              _ _ _ _ _).
    + reflexivity.
    + vm_compute. reflexivity.
    + vm_compute. reflexivity.
    + reflexivity.
    + intros d Hd. by inversion Hd.
  - refine (CalculateRoutes_no_matching_domain
              (Demo.actor [Demo.example_com] "") ["localhost"]
              "org" "space" [] [] "localhost" [] "localhost"
              NullInt_zero "" ∅ [] [] _ _ _ _ _).
    + reflexivity.
    + vm_compute. reflexivity.
    + vm_compute. reflexivity.
    + reflexivity.
    + intros d Hd. by inversion Hd.
Defined.

(** ** Hostname sanitizer *)

Section sanitizer_fixed_points.

Local Arguments Z.eqb : simpl never.
Local Arguments Z.leb : simpl never.
Local Arguments Z.ltb : simpl never.

Implicit Types (s : string) (c : ascii) (r : rune).

Lemma DecodeRuneInString_ascii c s :
  utf8.byte_val c < 0x80 →
  utf8.DecodeRuneInString (String c s) = (utf8.byte_val c, 1%nat).
Proof.
  intros Hc. unfold utf8.DecodeRuneInString, utf8.RuneSelf. cbv zeta.
  by rewrite (proj2 (Z.ltb_lt _ _) Hc).
Qed.

Lemma decode_ascii s :
  all_bytes (λ c, utf8.byte_val c < 0x80) s →
  utf8.decode_from 0 s
  = (λ c, (utf8.byte_val c, String c "")) <$> list_ascii_of_string s.
Proof.
  induction s as [|c s IH]; [done|]. intros [Hc Hs].
  cbn [utf8.decode_from]. rewrite DecodeRuneInString_ascii by done.
  cbn [list_ascii_of_string fmap list_fmap]. rewrite <- IH by done.
  f_equal. f_equal. by destruct s.
Qed.

Lemma host_byte_ascii s :
  all_bytes host_byte s → all_bytes (λ c, utf8.byte_val c < 0x80) s.
Proof.
  induction s as [|c s IH]; [done|]. intros [Hc Hs]. split; [|by apply IH].
  unfold host_byte in Hc. simpl in Hc. lia.
Qed.

Lemma host_rune_not_space r : host_rune r → unicode.IsSpace r = false.
Proof.
  intros Hr. assert (45 ≤ r ∧ r ≤ 122) as [??] by (unfold host_rune in Hr; lia).
  unfold unicode.IsSpace.
  repeat match goal with
         | |- context [r =? ?k] => rewrite (proj2 (Z.eqb_neq r k)) by lia
         | |- context [r <=? ?k] => rewrite (proj2 (Z.leb_gt r k)) by lia
         | |- context [?k <=? r] =>
             first [rewrite (proj2 (Z.leb_le k r)) by lia
                   |rewrite (proj2 (Z.leb_gt k r)) by lia]
         end.
  reflexivity.
Qed.

Lemma dropWhile_none {A} (f : A → bool) (l : list A) :
  Forall (λ x, f x = false) l → dropWhile f l = l ∧ dropWhileEnd f l = l.
Proof.
  induction 1 as [|x l Hx _ [IH1 IH2]]; [done|]. simpl.
  rewrite Hx, IH2. split; [done|]. by destruct l.
Qed.

Lemma host_bytes_runes s :
  all_bytes host_byte s →
  Forall host_rune (utf8.byte_val <$> list_ascii_of_string s).
Proof.
  induction s as [|c s IH]; [constructor|]. intros [Hc Hs].
  constructor; [exact Hc|by apply IH].
Qed.

Lemma TrimSpace_host s : all_bytes host_byte s → TrimSpace s = s.
Proof.
  intros Hs. unfold TrimSpace. cbv zeta.
  rewrite decode_ascii by by apply host_byte_ascii.
  assert (Forall (λ p : rune * string, unicode.IsSpace p.1 = false)
            ((λ c, (utf8.byte_val c, String c ""))
               <$> list_ascii_of_string s)) as Hns.
  { apply Forall_fmap. apply host_bytes_runes in Hs.
    rewrite Forall_fmap in Hs. eapply Forall_impl; [exact Hs|].
    intros c Hc. by apply host_rune_not_space. }
  destruct (dropWhile_none _ _ Hns) as [-> ->].
  clear. induction s as [|c s IH]; [done|].
  cbn [list_ascii_of_string fmap list_fmap concat_strings snd].
  cbn [fmap] in IH. by rewrite IH.
Qed.

Lemma range_host s :
  all_bytes host_byte s →
  utf8.range s = utf8.byte_val <$> list_ascii_of_string s.
Proof.
  intros Hs. unfold utf8.range.
  rewrite decode_ascii by by apply host_byte_ascii.
  by rewrite <- list_fmap_compose.
Qed.

Lemma sanitize_char_host r : host_rune r → sanitize_char r = [r].
Proof.
  unfold host_rune, sanitize_char, between.
  change (rune_of "a") with 97; change (rune_of "z") with 122;
  change (rune_of "A") with 65; change (rune_of "Z") with 90;
  change (rune_of "0") with 48; change (rune_of "9") with 57;
  change (rune_of " ") with 32; change (rune_of "-") with 45.
  intros Hr.
  repeat match goal with
         | |- context [?a <=? ?b] => destruct (Z.leb_spec a b)
         | |- context [?a =? ?b] => destruct (Z.eqb_spec a b)
         end; simpl; try done; try (f_equal; lia); lia.
Qed.

Lemma flat_map_sanitize_char_host (rs : list rune) :
  Forall host_rune rs → flat_map sanitize_char rs = rs.
Proof.
  induction 1 as [|r rs Hr _ IH]; [done|]. simpl.
  by rewrite sanitize_char_host, IH.
Qed.

Lemma string_of_runes_bytes s :
  all_bytes host_byte s →
  utf8.string_of_runes (utf8.byte_val <$> list_ascii_of_string s) = s.
Proof.
  induction s as [|c s IH]; [done|]. intros [Hc Hs].
  cbn [list_ascii_of_string fmap list_fmap utf8.string_of_runes].
  cbn [fmap] in IH. rewrite IH by done.
  assert (utf8.EncodeRune (utf8.byte_val c) = String c "") as ->; [|done].
  unfold host_byte in Hc. cbv zeta in Hc.
  unfold utf8.EncodeRune, utf8.RuneError.
  repeat match goal with
         | |- context [?a <=? ?b] => destruct (Z.leb_spec a b)
         | |- context [?a <? ?b] => destruct (Z.ltb_spec a b)
         end; simpl in *; try lia.
  unfold utf8.byte_of, utf8.byte_val.
  by rewrite N2Z.id, ascii_N_embedding.
Qed.

Lemma Trim_none s c :
  first_byte s ≠ Some c → last_byte s ≠ Some c → Trim s c = s.
Proof.
  intros Hfirst Hlast. unfold Trim.
  assert (TrimLeft s c = s) as ->.
  { destruct s as [|a s]; [done|]. simpl in *.
    rewrite decide_False; congruence. }
  clear Hfirst. induction s as [|a s IH]; [done|].
  simpl. destruct s as [|b t].
  - simpl in *. rewrite decide_False; congruence.
  - rewrite IH by done. done.
Qed.

Lemma byte_val_inj c c' : utf8.byte_val c = utf8.byte_val c' → c = c'.
Proof.
  unfold utf8.byte_val. intros H%N2Z.inj.
  by rewrite <- (ascii_N_embedding c), H, ascii_N_embedding.
Qed.

Lemma sanitize_host s :
  all_bytes host_byte s →
  first_byte s ≠ Some "-"%char → last_byte s ≠ Some "-"%char →
  sanitize s = s.
Proof.
  intros Hs Hfirst Hlast. rewrite sanitize_refines. unfold sanitize_spec.
  cbv zeta. rewrite TrimSpace_host, range_host by done.
  rewrite flat_map_sanitize_char_host by by apply host_bytes_runes.
  rewrite string_of_runes_bytes by done.
  destruct s as [|c s]; [done|].
  assert (letter_or_digit (utf8.byte_val c) = true) as Hc.
  { destruct Hs as [Hc _]. simpl in Hfirst.
    assert (utf8.byte_val c ≠ 45) as Hne.
    { intros H45. apply Hfirst. f_equal. by apply byte_val_inj. }
    unfold host_byte in Hc. cbv zeta in Hc.
    unfold letter_or_digit, between.
    change (rune_of "a") with 97; change (rune_of "z") with 122;
    change (rune_of "A") with 65; change (rune_of "Z") with 90;
    change (rune_of "0") with 48; change (rune_of "9") with 57.
    repeat match goal with
           | |- context [?a <=? ?b] => destruct (Z.leb_spec a b)
           end; simpl; try done; lia. }
  cbn [list_ascii_of_string fmap list_fmap existsb]. rewrite Hc. simpl orb.
  by apply Trim_none.
Qed.

End sanitizer_fixed_points.

(** X12.  [sanitize] is idempotent, and the names it leaves unchanged
    are exactly the strings made of lowercase letters, digits and hyphens
    that neither start nor end with a hyphen. *)
Theorem sanitize_idempotent :
  (∀ name, sanitize (sanitize name) = sanitize name)
  ∧ (∀ s, sanitize s = s
          ↔ all_bytes host_byte s
            ∧ first_byte s ≠ Some "-"%char
            ∧ last_byte s ≠ Some "-"%char).
Proof.
  split.
  - intros name. destruct (sanitize_host_safe name) as (? & ? & ?).
    by apply sanitize_host.
  - intros s. split.
    + intros <-. apply sanitize_host_safe.
    + intros (? & ? & ?). by apply sanitize_host.
Qed.

Section sanitizer_empty.

Local Arguments Z.eqb : simpl never.
Local Arguments Z.leb : simpl never.
Local Arguments Z.ltb : simpl never.

Lemma EncodeRune_host (r : rune) :
  host_rune r → utf8.EncodeRune r = String (utf8.byte_of r) "".
Proof.
  unfold host_rune. intros Hr. unfold utf8.EncodeRune, utf8.RuneError.
  repeat match goal with
         | |- context [?a <=? ?b] => destruct (Z.leb_spec a b)
         | |- context [?a <? ?b] => destruct (Z.ltb_spec a b)
         end; simpl in *; try done; lia.
Qed.

Lemma In_TrimLeft (s : string) (a c : ascii) :
  a ≠ c → In a (list_ascii_of_string s) →
  In a (list_ascii_of_string (TrimLeft s c)).
Proof.
  intros Hne. induction s as [|b s IH]; [done|]. simpl.
  case_decide as Hb; [|done]. intros [->|Hin]; [done|by apply IH].
Qed.

Lemma In_TrimRight (s : string) (a c : ascii) :
  a ≠ c → In a (list_ascii_of_string s) →
  In a (list_ascii_of_string (TrimRight s c)).
Proof.
  intros Hne. induction s as [|b s IH]; [done|]. simpl.
  intros [->|Hin].
  - destruct (TrimRight s c); [|by left].
    rewrite decide_False by done. by left.
  - specialize (IH Hin). destruct (TrimRight s c); [done|by right].
Qed.

Lemma In_string_of_runes (rs : list rune) (x : rune) :
  Forall host_rune rs → In x rs →
  In (utf8.byte_of x) (list_ascii_of_string (utf8.string_of_runes rs)).
Proof.
  induction 1 as [|r rs Hr _ IH]; [done|]. simpl utf8.string_of_runes.
  rewrite EncodeRune_host by done. rewrite sapp_cons, sapp_nil. simpl.
  intros [->|Hin]; [by left|right; by apply IH].
Qed.

Lemma emitted_host (rs : list rune) :
  Forall host_rune (flat_map sanitize_char rs).
Proof.
  apply Forall_forall. intros x Hx.
  apply list_elem_of_In, in_flat_map in Hx as (r & _ & Hx).
  by eapply sanitize_char_range, list_elem_of_In.
Qed.

Lemma sanitize_empty_iff (name : string) :
  sanitize name = ""
  ↔ existsb letter_or_digit (utf8.range (TrimSpace name)) = false.
Proof.
  rewrite sanitize_refines. unfold sanitize_spec. cbv zeta.
  set (rs := utf8.range (TrimSpace name)).
  assert (existsb letter_or_digit (flat_map sanitize_char rs)
          = existsb letter_or_digit rs) as ->.
  { by rewrite !existsb_filter_length, valid_count_emitted. }
  destruct (existsb letter_or_digit rs) eqn:Hex; [|done].
  split; [|done]. intros Hempty. exfalso.
  assert (existsb letter_or_digit (flat_map sanitize_char rs) = true) as Hem.
  { by rewrite existsb_filter_length, valid_count_emitted,
      <- existsb_filter_length. }
  apply existsb_exists in Hem as (x & Hx & Hlod).
  pose proof (emitted_host rs) as Hhost.
  assert (host_rune x) as Hxh.
  { rewrite Forall_forall in Hhost. by apply Hhost, list_elem_of_In. }
  assert (utf8.byte_of x ≠ "-"%char) as Hne.
  { intros Hb. assert (x = 45) as ->; [|done].
    unfold host_rune in Hxh.
    assert (utf8.byte_val (utf8.byte_of x) = 45) as Hv by by rewrite Hb.
    unfold utf8.byte_val, utf8.byte_of in Hv.
    rewrite N_ascii_embedding in Hv by lia. lia. }
  pose proof (In_string_of_runes _ _ Hhost Hx) as Hin.
  apply (In_TrimLeft _ _ "-" Hne), (In_TrimRight _ _ "-" Hne) in Hin.
  unfold Trim in Hempty. by rewrite Hempty in Hin.
Qed.

End sanitizer_empty.

(** X13.  [sanitize] returns the empty string exactly when no character
    of the trimmed name is an ASCII letter or digit; a name with one
    letter or digit never sanitizes to nothing. *)
Theorem sanitize_empty (name : string) :
  sanitize name = ""
  ↔ Forall (λ r, letter_or_digit r = false) (utf8.range (TrimSpace name)).
Proof.
  rewrite sanitize_empty_iff. split.
  - intros Hex. apply Forall_forall. intros r Hr.
    destruct (letter_or_digit r) eqn:Hlod; [|done].
    assert (existsb letter_or_digit (utf8.range (TrimSpace name)) = true)
      as Ht; [|congruence].
    apply existsb_exists. exists r. split; [by apply list_elem_of_In|done].
  - intros Hall. apply not_true_is_false. intros Hex.
    apply existsb_exists in Hex as (r & Hr & Hlod).
    rewrite Forall_forall in Hall.
    apply list_elem_of_In, Hall in Hr. congruence.
Qed.

(** ** Default-route selection *)

(** X14.  The hostname that [calculateHostname] selects is always fit
    for a host name: lowercase letters, digits and hyphens, no hyphen
    first or last.  It is empty whenever an error is returned, and
    whenever the domain is TCP; and the path that [calculatePath] selects
    is empty whenever the domain is TCP. *)
Theorem default_route_parts_safe (manifestApp : ManifestApplication)
    (domain : Domain) :
  let hostname := (calculateHostname manifestApp domain).1 in
  let path := (calculatePath manifestApp domain).1 in
  all_bytes host_byte hostname
  ∧ first_byte hostname ≠ Some "-"%char
  ∧ last_byte hostname ≠ Some "-"%char
  ∧ ((calculateHostname manifestApp domain).2 ≠ None → hostname = "")
  ∧ (IsTCP domain = true → hostname = "" ∧ path = "").
Proof.
  unfold calculateHostname, calculatePath.
  destruct manifestApp as [name dom explicit noHostname path].
  destruct domain as [guid dname [] []]; destruct noHostname; simpl;
    repeat case_bool_decide; simpl;
    pose proof (sanitize_host_safe
                  (if decide (explicit = "") then name else explicit))
      as (? & ? & ?);
    split_and!; try done; intros; try done; by split.
Qed.

(** ** Route reconciler *)

Lemma CreateRoutes_loop_all_exist actor config desired routes created ws0 tr :
  Forall (λ r, route_GUID r ≠ "") desired →
  CreateRoutes_loop actor config desired routes created ws0 tr
  = Returns ((set_DesiredRoutes (routes ++ desired) config, created, ws0,
              None), tr).
Proof.
  intros Hall. revert routes.
  induction Hall as [|r rest Hr _ IH]; intros routes; simpl.
  - by rewrite app_nil_r.
  - rewrite decide_False by done. by rewrite IH, <- app_assoc.
Qed.

(** X15.  When every desired route has a GUID, [CreateRoutes] makes no
    call to the client and returns the configuration as it was given,
    with [false] and no warning. *)
Theorem CreateRoutes_nothing_to_create (actor : Actor)
    (config : ApplicationConfig) (tr : Trace) :
  Forall (λ r, route_GUID r ≠ "") (DesiredRoutes config) →
  CreateRoutes actor config tr = Returns ((config, false, [], None), tr).
Proof.
  intros Hall. unfold CreateRoutes.
  rewrite CreateRoutes_loop_all_exist by done. by destruct config.
Qed.

Lemma CreateRoutes_nothing_to_create_witness :
  let config :=
    mkApplicationConfig (mkApplication "app" "my-app") []
      [Demo.route "r1" "www"; Demo.route "r2" "api"] in
  CreateRoutes (Demo.actor [] "www") config []
  = Returns ((config, false, [], None), []).
Proof.
  intros config. apply CreateRoutes_nothing_to_create.
  by repeat constructor.
Defined.

(** X16.  After a successful [UnmapRoutes], [MapRoutes] makes a bind
    call for every desired route, in order, also for those that were
    bound before: the bind calls are for the first desired routes, for
    all of them when [MapRoutes] succeeds, and then the current routes
    are the desired routes and the flag tells whether there is a desired
    route at all. *)
Theorem MapRoutes_after_UnmapRoutes (actor : Actor)
    (config config1 : ApplicationConfig) (ws1 : Warnings) (tr tr1 : Trace) :
  UnmapRoutes actor config tr = Returns ((config1, ws1, None), tr1) →
  ∃ config2 bound ws2 err evs,
    MapRoutes actor config1 tr1
    = Returns ((config2, bound, ws2, err), tr1 ++ evs)
    ∧ Forall2 (is_map_call (app_GUID (DesiredApplication config)))
        (take (length evs) (DesiredRoutes config)) evs
    ∧ (err = None →
       length evs = length (DesiredRoutes config)
       ∧ CurrentRoutes config2 = DesiredRoutes config
       ∧ (bound = true ↔ DesiredRoutes config ≠ [])).
Proof.
  intros Hunmap.
  destruct (UnmapRoutes_loop_spec actor config
              (app_GUID (DesiredApplication config)) (CurrentRoutes config)
              [] tr)
    as (config' & ws' & err' & evs' & Hrun & _ & _ & Hres).
  unfold UnmapRoutes in Hunmap. rewrite Hrun in Hunmap.
  injection Hunmap as -> -> -> _. destruct Hres as (-> & _).
  set (config1 := set_CurrentRoutes [] config).
  destruct (MapRoutes_loop_spec actor config1 (DesiredRoutes config1)
              false [] tr1)
    as ([[[config2 bound] ws2] err] & evs & Hmap & _ & HF & Hres).
  assert (unbound config1 (DesiredRoutes config1) = DesiredRoutes config)
    as Hall.
  { unfold unbound. simpl. clear.
    induction (DesiredRoutes config) as [|r l IH]; [done|].
    rewrite filter_cons. rewrite decide_True by done. by f_equal. }
  rewrite Hall in HF, Hres.
  exists config2, bound, ws2, err, evs. split_and!; try done.
  intros ->. destruct Hres as (-> & _ & Hlen & ->). split_and!; try done.
  simpl. rewrite bool_decide_eq_true.
  destruct evs, (DesiredRoutes config); naive_solver.
Qed.

Lemma MapRoutes_after_UnmapRoutes_witness :
  let config :=
    mkApplicationConfig (mkApplication "app" "my-app")
      [Demo.route "r1" "a"] [Demo.route "r1" "a"; Demo.route "r2" "b"] in
  ∃ ws1 tr1 config2,
    UnmapRoutes (Demo.actor [] "") config []
    = Returns ((set_CurrentRoutes [] config, ws1, None), tr1)
    ∧ MapRoutes (Demo.actor [] "") (set_CurrentRoutes [] config) tr1
      = Returns ((config2, true, ["warning r1"; "warning r2"], None),
                 tr1 ++ [EvMapRouteToApplication "r1" "app" ["warning r1"]
                           None;
                         EvMapRouteToApplication "r2" "app" ["warning r2"]
                           None]).
Proof.
  intros config.
  assert (UnmapRoutes (Demo.actor [] "") config []
          = Returns ((set_CurrentRoutes [] config, ["warning r1"], None),
                     [EvUnmapRouteFromApplication "r1" "app" ["warning r1"]
                        None])) as Hunmap by (vm_compute; reflexivity).
  destruct (MapRoutes_after_UnmapRoutes _ _ _ _ _ _ Hunmap)
    as (config2 & bound & ws2 & err & evs & Hmap & _ & _).
  eexists _, _, _. split; [exact Hunmap|]. vm_compute. reflexivity.
Defined.

(** ** Default route of an application *)

Lemma same_settings_decide (r route : Route) :
  bool_decide (route_Host r = route_Host route)
  && bool_decide (route_Path r = route_Path route)
  && bool_decide (route_Port r = route_Port route)
  && bool_decide (route_SpaceGUID r = route_SpaceGUID route)
  && bool_decide (domain_GUID (route_Domain r)
                  = domain_GUID (route_Domain route)) = true
  ↔ same_settings r route.
Proof.
  unfold same_settings. rewrite !andb_true_iff, !bool_decide_eq_true.
  naive_solver.
Qed.

Lemma routeInListBySettings_cases (route : Route) (routes : list Route) :
  match routeInListBySettings route routes with
  | (r, true) =>
      ∃ before after,
        routes = before ++ r :: after
        ∧ same_settings r route
        ∧ Forall (λ r', ¬ same_settings r' route) before
  | (r, false) =>
      r = Route_zero ∧ Forall (λ r', ¬ same_settings r' route) routes
  end.
Proof.
  induction routes as [|r routes IH]; simpl; [by split|].
  destruct (_ && _) eqn:Hsame.
  - apply same_settings_decide in Hsame. by exists [], routes.
  - assert (¬ same_settings r route) as Hne.
    { intros H%same_settings_decide. congruence. }
    destruct (routeInListBySettings route routes) as [r' []].
    + destruct IH as (before & after & -> & ? & ?).
      exists (r :: before), after. split_and!; try done. by constructor.
    + destruct IH as [-> ?]. split; [done|]. by constructor.
Qed.

(** X17.  [routeInListBySettings] returns the first route of the list
    that has the host, path, port, space and domain GUID of the given
    route, and the zero route with [false] when there is none.  The GUID
    of either route, and the name and type of the domains, play no
    part. *)
Theorem routeInListBySettings_first (route : Route) (routes : list Route) :
  match routeInListBySettings route routes with
  | (r, true) =>
      ∃ before after,
        routes = before ++ r :: after
        ∧ same_settings r route
        ∧ Forall (λ r', ¬ same_settings r' route) before
  | (r, false) =>
      r = Route_zero ∧ Forall (λ r', ¬ same_settings r' route) routes
  end.
Proof. apply routeInListBySettings_cases. Qed.

(** X18.  With a TCP domain [GetGeneratedRoute] never looks a route up
    and never reads the known routes: a hostname in the manifest is an
    error, else a path in the manifest is an error, and these return the
    zero route; otherwise the route returned is new (no GUID) and has no
    host, no path and no port. *)
Theorem GetGeneratedRoute_TCP (pa : PushActor)
    (manifestApp : ManifestApplication) (orgGUID spaceGUID : string)
    (knownRoutes : list Route) (tr tr1 : Trace) (d : Domain)
    (ws : Warnings) :
  calculateDomain pa manifestApp orgGUID tr = Returns ((d, ws, None), tr1) →
  IsTCP d = true →
  GetGeneratedRoute pa manifestApp orgGUID spaceGUID knownRoutes tr
  = Returns
      ((if decide (manifest_Hostname manifestApp ≠ "")
        then (Route_zero, ws, Some HostnameWithTCPDomainError)
        else if decide (manifest_RoutePath manifestApp ≠ "")
        then (Route_zero, ws, Some RoutePathWithTCPDomainError)
        else (mkRoute "" "" d "" NullInt_zero spaceGUID, ws, None)), tr1).
Proof.
  intros Hdomain Htcp.
  unfold GetGeneratedRoute. rewrite bind_run, Hdomain. cbv beta iota.
  unfold calculateHostname, calculatePath in *. rewrite Htcp in *.
  destruct manifestApp as [name dom explicit noHostname path].
  simpl in *. unfold IsTCP in Htcp. unfold IsHTTP.
  destruct (domain_RoutingType d); [done|].
  repeat case_decide; repeat case_bool_decide; try done;
    destruct noHostname; simpl; rewrite ?andb_false_r; simpl;
    try done; naive_solver.
Qed.

Lemma GetGeneratedRoute_TCP_witness :
  GetGeneratedRoute
    (DemoPush.pushActor DemoPush.tcp_example_com [] [] "")
    (mkManifestApplication "My App" "" "" false "") "org" "space"
    [mkRoute "r9" "" DemoPush.tcp_example_com "" NullInt_zero "space"] []
  = Returns ((mkRoute "" "" DemoPush.tcp_example_com "" NullInt_zero "space",
              ["default domain"], None), []).
Proof.
  refine (GetGeneratedRoute_TCP
            (DemoPush.pushActor DemoPush.tcp_example_com [] [] "")
            (mkManifestApplication "My App" "" "" false "")
            "org" "space" _ [] [] DemoPush.tcp_example_com
            ["default domain"] _ _); reflexivity.
Defined.

(** X19.  With an HTTP domain and a manifest that passes the checks,
    [GetGeneratedRoute] prefers a known route: it returns the first known
    route with the settings of the default route, without a call to the
    client.  Only when no known route has them does it look the route up,
    once; a route that is not found is not an error but gives the default
    route, with no GUID; any other answer of the client is returned as it
    is, so a [RouteNotFoundError] is never returned. *)
Theorem GetGeneratedRoute_HTTP (pa : PushActor)
    (manifestApp : ManifestApplication) (orgGUID spaceGUID : string)
    (knownRoutes : list Route) (tr tr1 : Trace) (d : Domain)
    (ws : Warnings) (host path : string) :
  calculateDomain pa manifestApp orgGUID tr = Returns ((d, ws, None), tr1) →
  IsTCP d = false →
  calculateHostname manifestApp d = (host, None) →
  calculatePath manifestApp d = (path, None) →
  let defaultRoute := mkRoute "" host d path NullInt_zero spaceGUID in
  ∃ r ws' err tr',
    GetGeneratedRoute pa manifestApp orgGUID spaceGUID knownRoutes tr
    = Returns ((r, ws', err), tr')
    ∧ err ≠ Some RouteNotFoundError
    ∧ ((∃ before after,
          knownRoutes = before ++ r :: after
          ∧ same_settings r defaultRoute
          ∧ Forall (λ r', ¬ same_settings r' defaultRoute) before
          ∧ err = None ∧ ws' = ws ∧ tr' = tr1)
       ∨ (Forall (λ r', ¬ same_settings r' defaultRoute) knownRoutes
          ∧ ∃ found rws lookupErr,
              tr' = tr1 ++ [EvFindRouteBoundToSpaceWithSettings defaultRoute
                              found rws lookupErr]
              ∧ ws' = ws ++ rws
              ∧ ((lookupErr = Some RouteNotFoundError
                  ∧ r = defaultRoute ∧ err = None)
                 ∨ (lookupErr ≠ Some RouteNotFoundError
                    ∧ r = found ∧ err = lookupErr)))).
Proof.
  intros Hdomain Htcp Hhost Hpath defaultRoute.
  unfold GetGeneratedRoute. rewrite bind_run, Hdomain. cbv beta iota.
  rewrite Hhost, Hpath, Htcp. cbv beta iota. fold defaultRoute.
  pose proof (routeInListBySettings_cases defaultRoute knownRoutes) as Hknown.
  destruct (routeInListBySettings defaultRoute knownRoutes) as [cached []];
    cbn [negb].
  - destruct Hknown as (before & after & -> & Hsame & Hbefore).
    eexists _, _, _, _. rewrite ret_run. split; [reflexivity|].
    split; [done|]. left. by exists before, after.
  - destruct Hknown as [_ Hnone]. rewrite bind_run.
    unfold V2Actor.FindRouteBoundToSpaceWithSettings.
    destruct (V2Actor_FindRouteBoundToSpaceWithSettings (push_actor pa) tr1
                defaultRoute) as [[found rws] lookupErr].
    destruct lookupErr as [e|].
    + destruct e; rewrite ret_run; eexists _, _, _, _;
        (split; [reflexivity|]); (split; [done|]); right;
        (split; [done|]); eexists _, _, _;
        (split; [reflexivity|]); (split; [done|]);
        first [by left|by right].
    + rewrite ret_run. eexists _, _, _, _. split; [reflexivity|].
      split; [done|]. right. split; [done|]. eexists _, _, _.
      split; [reflexivity|]. split; [done|]. by right.
Qed.

Lemma GetGeneratedRoute_HTTP_witness :
  let pa := DemoPush.pushActor Demo.example_com [] [] "" in
  let manifestApp := mkManifestApplication "My App" "" "" false "" in
  ∃ r ws' err tr',
    GetGeneratedRoute pa manifestApp "org" "space"
      [Demo.route "r1" "www"; Demo.route "r2" "my-app"] []
    = Returns ((r, ws', err), tr')
    ∧ err ≠ Some RouteNotFoundError.
Proof.
  intros pa manifestApp.
  destruct (GetGeneratedRoute_HTTP pa manifestApp "org" "space"
              [Demo.route "r1" "www"; Demo.route "r2" "my-app"] [] []
              Demo.example_com ["default domain"] "my-app" "")
    as (r & ws' & err & tr' & Hrun & Herr & _);
    [reflexivity|reflexivity|vm_compute; reflexivity|reflexivity|].
  by exists r, ws', err, tr'.
Defined.

(** X20.  [CreateAndMapDefaultApplicationRoute] stops at the first
    failure of the default domain or of the application's routes.  The
    default route has the application name as its host, as it is.  When a
    route of the application already has its settings, nothing more is
    called and no error is returned.  Otherwise the route is looked up;
    it is created, with no random port, only when it is not found; and it
    is mapped only when it was found or its creation succeeded.  The
    warnings returned are those of all the calls made, in order. *)
Theorem CreateAndMapDefaultApplicationRoute_calls (pa : PushActor)
    (orgGUID spaceGUID : string) (app : Application) (tr : Trace) :
  match DefaultDomain pa orgGUID tr with
  | Panics =>
      CreateAndMapDefaultApplicationRoute pa orgGUID spaceGUID app tr
      = Panics
  | Returns ((_, dws, Some e), tr1) =>
      CreateAndMapDefaultApplicationRoute pa orgGUID spaceGUID app tr
      = Returns ((dws, Some e), tr1)
  | Returns ((d, dws, None), tr1) =>
      let defaultRoute :=
        mkRoute "" (app_Name app) d "" NullInt_zero spaceGUID in
      match V2Actor_GetApplicationRoutes pa (app_GUID app) tr1 with
      | Panics =>
          CreateAndMapDefaultApplicationRoute pa orgGUID spaceGUID app tr
          = Panics
      | Returns ((_, aws, Some e), tr2) =>
          CreateAndMapDefaultApplicationRoute pa orgGUID spaceGUID app tr
          = Returns ((dws ++ aws, Some e), tr2)
      | Returns ((boundRoutes, aws, None), tr2) =>
          ∃ evs err,
            CreateAndMapDefaultApplicationRoute pa orgGUID spaceGUID app tr
            = Returns ((dws ++ aws ++ flat_map ev_warnings evs, err),
                       tr2 ++ evs)
            ∧ if (routeInListBySettings defaultRoute boundRoutes).2
              then evs = [] ∧ err = None
              else default_route_calls defaultRoute (app_GUID app) evs err
      end
  end.
Proof.
  unfold CreateAndMapDefaultApplicationRoute, getDefaultRoute.
  rewrite !bind_run.
  destruct (DefaultDomain pa orgGUID tr) as [[[[d dws] [e|]] tr1]|];
    [done| |done].
  rewrite ret_run. cbv beta iota zeta. rewrite bind_run.
  destruct (V2Actor_GetApplicationRoutes pa (app_GUID app) tr1)
    as [[[[boundRoutes aws] [e|]] tr2]|]; [done| |done].
  cbv beta iota.
  set (defaultRoute := mkRoute _ _ _ _ _ _).
  destruct (routeInListBySettings defaultRoute boundRoutes) as [r []];
    cbn [snd].
  { exists [], None. rewrite ret_run, !app_nil_r. done. }
  rewrite bind_run. unfold V2Actor.FindRouteBoundToSpaceWithSettings.
  destruct (V2Actor_FindRouteBoundToSpaceWithSettings (push_actor pa) tr2
              defaultRoute) as [[found ws1] lookupErr].
  set (lookup := EvFindRouteBoundToSpaceWithSettings _ _ _ _).
  assert (∀ spaceRoute wsacc trm,
            ∃ ws err,
              mapDefaultRoute pa spaceRoute app wsacc trm
              = Returns ((wsacc ++ ws, err),
                         trm ++ [EvMapRouteToApplication
                                   (route_GUID spaceRoute) (app_GUID app)
                                   ws err])) as Hmap.
  { intros spaceRoute wsacc trm. unfold mapDefaultRoute.
    rewrite bind_run. unfold V2Actor.MapRouteToApplication.
    destruct (V2Actor_MapRouteToApplication (push_actor pa) trm
                (route_GUID spaceRoute) (app_GUID app)) as [ws err].
    by exists ws, err. }
  destruct lookupErr as [e|].
  - destruct e;
      try (rewrite ret_run; eexists [lookup], _; simpl;
           rewrite ?app_nil_r, <- ?app_assoc; split; [reflexivity|];
           match goal with
           | |- default_route_calls _ _ _ (Some ?e) =>
               exists found, ws1, (Some e)
           end; by split).
    rewrite bind_run. unfold V2Actor.CreateRoute.
    destruct (V2Actor_CreateRoute (push_actor pa) (tr2 ++ [lookup])
                defaultRoute false) as [[created ws2] createErr].
    set (create := EvCreateRoute _ _ _ _ _).
    destruct createErr as [e|].
    + rewrite ret_run. eexists [lookup; create], _. simpl.
      rewrite !app_nil_r, <- !app_assoc. split; [reflexivity|].
      exists found, ws1, (Some RouteNotFoundError). simpl.
      by exists created, ws2, (Some e).
    + destruct (Hmap created ((([] ++ dws) ++ aws) ++ ws1 ++ ws2)
                  ((tr2 ++ [lookup]) ++ [create])) as (ws3 & err & Hrun).
      rewrite <- !app_assoc in Hrun. rewrite <- !app_assoc.
      simpl in Hrun |- *. rewrite Hrun.
      exists [lookup; create;
              EvMapRouteToApplication (route_GUID created) (app_GUID app)
                ws3 err], err.
      simpl. rewrite app_nil_r.
      split; [reflexivity|].
      exists found, ws1, (Some RouteNotFoundError). simpl.
      exists created, ws2, None. by exists ws3.
  - destruct (Hmap found ((([] ++ dws) ++ aws) ++ ws1) (tr2 ++ [lookup]))
      as (ws2 & err & Hrun).
    rewrite <- !app_assoc in Hrun. rewrite <- !app_assoc.
    simpl in Hrun |- *. rewrite Hrun.
    exists [lookup;
            EvMapRouteToApplication (route_GUID found) (app_GUID app)
              ws2 err], err.
    simpl. rewrite app_nil_r.
    split; [reflexivity|].
    exists found, ws1, None. simpl. by exists ws2.
Qed.

(** X21.  With a domain named in the manifest, [calculateDomain] makes
    one domain lookup, for that one name, and does not ask for the default
    domain.  An error of the client is returned with the zero domain; no
    domain found is a [DomainNotFoundError] that names the manifest
    domain; of several domains found the first is taken. *)
Theorem calculateDomain_explicit (pa : PushActor)
    (manifestApp : ManifestApplication) (orgGUID : string) (tr : Trace) :
  manifest_Domain manifestApp ≠ "" →
  ∃ found ws err,
    V2Actor_GetDomainsByNameAndOrganization (push_actor pa) tr
      {[ manifest_Domain manifestApp ]} orgGUID = (found, ws, err)
    ∧ calculateDomain pa manifestApp orgGUID tr
      = Returns
          (match err, found with
           | Some e, _ => (Domain_zero, ws, Some e)
           | None, [] =>
               (Domain_zero, ws,
                Some (DomainNotFoundError (manifest_Domain manifestApp)))
           | None, d :: _ => (d, ws, None)
           end,
           tr ++ [EvGetDomainsByNameAndOrganization
                    {[ manifest_Domain manifestApp ]} orgGUID found ws err]).
Proof.
  intros Hname. unfold calculateDomain. rewrite decide_False by done.
  rewrite bind_run. unfold V2Actor.GetDomainsByNameAndOrganization.
  destruct (V2Actor_GetDomainsByNameAndOrganization (push_actor pa) tr
              {[ manifest_Domain manifestApp ]} orgGUID)
    as [[found ws] err].
  exists found, ws, err. split; [done|].
  by destruct err as [e|], found as [|d ds].
Qed.

Lemma calculateDomain_explicit_witness :
  calculateDomain
    (DemoPush.pushActor DemoPush.tcp_example_com [] [Demo.example_com] "")
    (mkManifestApplication "app" "other.org" "" false "") "org" []
  = Returns ((Domain_zero, [], Some (DomainNotFoundError "other.org")),
             [EvGetDomainsByNameAndOrganization {[ "other.org" ]} "org"
                [] [] None]).
Proof.
  destruct (calculateDomain_explicit
              (DemoPush.pushActor DemoPush.tcp_example_com []
                 [Demo.example_com] "")
              (mkManifestApplication "app" "other.org" "" false "")
              "org" []) as (found & ws & err & Hcall & Hrun); [done|].
  vm_compute in Hcall. injection Hcall as <- <- <-. exact Hrun.
Defined.

(** ** Candidate domains *)

Lemma Count_Join_drop (h : string) (k i : nat) :
  Z.of_nat k ≤ strings.Count h "." → (i ≤ k)%nat →
  strings.Count (strings.Join (drop i (strings.genSplit h "." k)) ".") "."
  = strings.Count h "." - Z.of_nat i.
Proof.
  revert h i. induction k as [|k IH]; intros h i Hk Hi.
  - replace i with 0%nat by lia. simpl. lia.
  - destruct (cut_is_Some h ".") as [[a b] Hcut]; [lia|].
    destruct (cut_Some _ _ _ _ Hcut) as [Hh Ha].
    assert (strings.Count h "." = 1 + strings.Count b ".") as Hc.
    { rewrite Hh at 1. rewrite Count_sep_app. lia. }
    simpl strings.genSplit. rewrite Hcut. destruct i as [|i].
    + simpl drop. rewrite Join_cons by apply genSplit_nonempty.
      rewrite (Join_genSplit b "." k).
      change (a +:+ "." +:+ b) with (a +:+ String "." b).
      rewrite <- Hh. lia.
    + simpl drop. rewrite IH by lia. lia.
Qed.

(** X22.  The number of candidate names that [generatePossibleDomains]
    produces for one hostname is the number of dots of the hostname. *)
Theorem addPossibleDomains_size (h : string) :
  Z.of_nat (size (addPossibleDomains ∅ h)) = strings.Count h ".".
Proof.
  pose proof (Count_nonneg h ".") as Hnn.
  destruct (decide (strings.Count h "." = 0)) as [H0|H0].
  { unfold addPossibleDomains. rewrite H0. simpl. done. }
  set (k := Z.to_nat (strings.Count h "." - 1)).
  set (f := λ i, strings.Join (drop i (strings.genSplit h "." k)) ".").
  assert (addPossibleDomains ∅ h = list_to_set (f <$> seq 0 (S k))) as ->.
  { apply set_eq. intros s. unfold addPossibleDomains. cbv zeta.
    rewrite SplitN_Count by lia. fold k. rewrite genSplit_length by lia.
    rewrite (elem_of_foldl_insert
               (λ i, strings.Join (drop i (strings.genSplit h "." k)) ".")).
    rewrite elem_of_list_to_set, list_elem_of_fmap. set_solver. }
  rewrite size_list_to_set.
  - rewrite length_fmap, length_seq. lia.
  - apply NoDup_fmap_2_strong; [|apply NoDup_seq].
    intros i j Hi%elem_of_seq Hj%elem_of_seq Hf.
    assert (strings.Count (f i) "." = strings.Count (f j) ".") as Hc
      by by rewrite Hf.
    unfold f in Hc. rewrite !Count_Join_drop in Hc by lia. lia.
Qed.
